(** * LM Studio Sidekick: rate limiter, context store and batch dispatcher

    A shallow embedding of [lmstudio_sidekick.py].  The module keeps two
    process-wide dictionaries, [rate_limiter] and [context_store]; every
    tool is a function that threads them, together with what it reads from
    the wall clock and what it gets back from the LM Studio backend. *)

From Stdlib Require Import ZArith QArith Ascii String.
From stdpp Require Import gmap strings list fin_maps pretty sorting.
Close Scope Q_scope.
#[local] Open Scope Z_scope.

(** ** Python strings

    A Python [str] is represented by its UTF-8 encoding, so the literals
    below are the ones of the source.  [len] counts code points, that is,
    the bytes that are not UTF-8 continuation bytes (10xxxxxx). *)

Definition LF : string := String "010"%char EmptyString.

Definition is_continuation_byte (c : ascii) : bool :=
  match c with
  | Ascii _ _ _ _ _ _ b6 b7 => b7 && negb b6
  end.

Fixpoint len (s : string) : nat :=
  match s with
  | EmptyString => 0%nat
  | String c s' => if is_continuation_byte c then len s' else S (len s')
  end.

(** [startswith p s]: [s.startswith(p)]. *)
Fixpoint startswith (p s : string) : bool :=
  match p, s with
  | EmptyString, _ => true
  | String a p', String b s' => if Ascii.eqb a b then startswith p' s' else false
  | String _ _, EmptyString => false
  end.

(** [str_in p s]: the substring test [p in s]. *)
Fixpoint str_in (p s : string) : bool :=
  startswith p s ||
  match s with
  | EmptyString => false
  | String _ s' => str_in p s'
  end.

(** [s] contains [p] as a substring. *)
Definition is_substring (p s : string) : Prop := ∃ a b, s = a +:+ p +:+ b.

(** [estimate_tokens], line 70: [len(text) // 4]. *)
Definition estimate_tokens (text : string) : Z := Z.of_nat (len text) / 4.

(** ** Python ranges and slices *)

(** [range_up fuel i stop step]: the values [i, i+step, ...] below [stop],
    for a positive [step]. *)
Fixpoint range_up (fuel : nat) (i stop step : Z) : list Z :=
  match fuel with
  | O => []
  | S fuel' => if decide (i < stop) then i :: range_up fuel' (i + step) stop step else []
  end.

Fixpoint range_down (fuel : nat) (i stop step : Z) : list Z :=
  match fuel with
  | O => []
  | S fuel' => if decide (stop < i) then i :: range_down fuel' (i + step) stop step else []
  end.

(** [range(start, stop, step)]; [None] is the [ValueError] raised for a
    zero step.  The fuel [|stop - start|] is enough for any non-zero step. *)
Definition py_range (start stop step : Z) : option (list Z) :=
  if decide (step = 0) then None
  else if decide (0 < step) then Some (range_up (Z.to_nat (stop - start)) start stop step)
  else Some (range_down (Z.to_nat (start - stop)) start stop step).

(** [l[i:j]] for [0 <= i]; a bound past the end is clipped, and [j <= i]
    gives the empty list. *)
Definition slice {A} (l : list A) (i j : Z) : list A :=
  take (Z.to_nat (j - i)) (drop (Z.to_nat i) l).

(** The batches of lines 452-453, in the order the loop of
    [batch_process] takes them: [items[i:i + batch_size]] for [i] in
    [range(0, len(items), batch_size)]. *)
Definition chunks {A} (items : list A) (batch_size : Z) : list (list A) :=
  match py_range 0 (Z.of_nat (length items)) batch_size with
  | None => []
  | Some starts => (λ i, slice items i (i + batch_size)) <$> starts
  end.

(** ** State *)

(** A value of [context_store]: the dictionary with keys "data",
    "timestamp" and "tokens". *)
Record context_entry := ContextEntry {
  data : string;
  timestamp : string;
  tokens : Z
}.

(** The JSON body of a POST to [/chat/completions]; [messages] are
    (role, content) pairs. *)
Record request := Request {
  messages : list (string * string);
  temperature : Q;
  max_tokens : Z
}.

(** What a POST does: it raises (connection refused, timeout, a body that is
    not JSON: anything the [except Exception] clause catches, [e] being
    [str(e)]), or it returns a status code and the [content] of the message
    of each element of [choices] (the empty string when the key is absent). *)
Inductive response :=
| Raises (e : string)
| Returns (status_code : Z) (choices : list string).

(** The process state: the two dictionaries, how many times the wall clock
    has been read, and the POSTs to [/chat/completions] issued so far,
    oldest first.
    [rate_limiter] is a [defaultdict(list)]: a missing key reads as []. *)
Record world := World {
  rate_limiter : gmap string (list Z);
  context_store : gmap string context_entry;
  clock_reads : nat;
  posts : list request
}.

Definition set_rate_limiter (rl : gmap string (list Z)) (w : world) : world :=
  World rl (context_store w) (clock_reads w) (posts w).

Definition set_context_store (cs : gmap string context_entry) (w : world) : world :=
  World (rate_limiter w) cs (clock_reads w) (posts w).

(** The state at import time (lines 36 and 39). *)
Definition initial_world : world := World ∅ ∅ 0 [].

(** The value [batch_process] returns: a text, or the [json.dumps] of the
    dictionary with keys "total_items", "processed_items" and "results",
    kept here before serialisation. *)
Inductive batch_result :=
| BatchText (s : string)
| BatchJson (total_items processed_items : Z) (results : list string).

(** ** The state monad of the tools *)

Definition M (A : Type) : Type := world -> A * world.

Definition ret {A} (a : A) : M A := fun w => (a, w).

Definition bind {A B} (m : M A) (k : A -> M B) : M B :=
  fun w => let (a, w') := m w in k a w'.

Notation "'let!' x ':=' m 'in' k" := (bind m (fun x => k))
  (at level 10, x name, m at level 100, k at level 200).

Definition get_context_store : M (gmap string context_entry) :=
  fun w => (context_store w, w).

Definition put_context_store (cs : gmap string context_entry) : M unit :=
  fun w => (tt, set_context_store cs w).

(** ** Fixed texts *)

Definition RATE_LIMIT_EXCEEDED : string :=
  "⚠️ Rate limit exceeded. Please wait a moment before trying again.".

Definition SUMMARIZE_SYSTEM_PROMPT : string :=
  "You are a helpful assistant that creates concise summaries. Summarize the following context, preserving key information.".

Definition ANALYZE_SYSTEM_PROMPT : string :=
  "You are an analytical assistant. Extract key points, entities, and actionable items from the context.".

Definition BATCH_SYSTEM_PROMPT : string :=
  "You are a batch processing assistant. Process each item according to the specified operation. Be consistent across all items.".

Definition NO_ITEMS : string := "❌ No items provided for batch processing.".

Definition RANGE_ZERO_STEP : string :=
  "Error in batch processing: range() arg 3 must not be zero".

Definition BATCH_SEPARATOR : string := LF +:+ LF +:+ "---" +:+ LF +:+ LF.

(** The text of the "not found" branch of [retrieve], line 313. *)
Definition context_not_found (context_id : string) : string :=
  "❌ Context ID '" +:+ context_id +:+ "' not found.".

Definition context_too_large (estimated_tokens max_size : Z) : string :=
  "⚠️ Context too large (" +:+ pretty estimated_tokens +:+ " tokens). Maximum is "
    +:+ pretty max_size +:+ " tokens.".

Definition context_stored (context_id : string) (estimated_tokens : Z) : string :=
  "✅ Context stored successfully. ID: " +:+ context_id +:+ " ("
    +:+ pretty estimated_tokens +:+ " tokens)".

Definition context_retrieved (ctx : context_entry) : string :=
  "📋 Context retrieved:" +:+ LF +:+ LF +:+ data ctx +:+ LF +:+ LF +:+ "(Stored: "
    +:+ timestamp ctx +:+ ", " +:+ pretty (tokens ctx) +:+ " tokens)".

Definition summary_created (response : string) : string :=
  "📝 Summary created:" +:+ LF +:+ LF +:+ response.

Definition analysis_text (response : string) : string :=
  "🔍 Analysis:" +:+ LF +:+ LF +:+ response.

Definition unknown_operation (operation : string) : string :=
  "❌ Unknown operation: " +:+ operation
    +:+ ". Use 'store', 'retrieve', 'summarize', or 'analyze'.".

Definition rate_limit_hit (batch_num i : Z) : string :=
  "⚠️ Rate limit hit at batch " +:+ pretty batch_num +:+ ". Processed "
    +:+ pretty i +:+ " items.".

Definition batch_header (batch_num total_batches : Z) (response : string) : string :=
  "**Batch " +:+ pretty batch_num +:+ "/" +:+ pretty total_batches +:+ ":**"
    +:+ LF +:+ response.

Definition cleared_all (count : nat) : string :=
  "🧹 Cleared all " +:+ pretty count +:+ " stored contexts.".

Definition cleared_matching (count : nat) (context_pattern : string) : string :=
  "🧹 Cleared " +:+ pretty count +:+ " contexts matching '" +:+ context_pattern +:+ "'.".

(** ** A sample environment

    The clock advances by one tick at each reading and the backend answers
    every request with status 200 and the one reply it is given. *)

Definition sample_time (n : nat) : Z := Z.of_nat n.

Definition sample_isoformat (n : nat) : string := "2025-01-01T00:00:" +:+ pretty n.

Definition sample_backend (reply : string) (n : nat) (req : request) : response :=
  Returns 200 [reply].

(** A clock whose readings all lie within 60 ticks: it advances by one
    tick at each reading and stops at 59. *)
Definition sample_burst_time (n : nat) : Z := Z.of_nat (n `min` 59).

(** Twenty items, "item1" to "item20". *)
Definition sample_items : list string := (λ n : nat, "item" +:+ pretty n) <$> seq 1 20.

Definition sample_reply : string :=
  "The project plan covers three milestones and two open risks.".

(** ** The tools *)

Section Sidekick.

(** Configuration read from the environment at import time. *)
Variables LMSTUDIO_HOST LMSTUDIO_PORT : string.
Variables RATE_LIMIT_WINDOW RATE_LIMIT_MAX_REQUESTS MAX_CONTEXT_SIZE : Z.

(** The environment: [time_time n] and [datetime_now n] are what
    [time.time()] and [datetime.now().isoformat()] give at the [n]-th
    reading of the clock, [requests_post n req] what the backend answers
    to [req] when it is the [n]-th POST.  Timestamps are counted in ticks
    of the clock, [RATE_LIMIT_WINDOW] in the same unit. *)
Variable time_time : nat -> Z.
Variable datetime_now : nat -> string.
Variable requests_post : nat -> request -> response.

Definition read_time : M Z :=
  fun w => (time_time (clock_reads w),
            World (rate_limiter w) (context_store w) (S (clock_reads w)) (posts w)).

Definition read_isoformat : M string :=
  fun w => (datetime_now (clock_reads w),
            World (rate_limiter w) (context_store w) (S (clock_reads w)) (posts w)).

Definition post (req : request) : M response :=
  fun w => (requests_post (length (posts w)) req,
            World (rate_limiter w) (context_store w) (clock_reads w) (posts w ++ [req])).

(** *** The rate limiter, lines 58-68 *)

(** Line 62: [[t for t in window if now - t < RATE_LIMIT_WINDOW]]. *)
Definition prune (now : Z) (window : list Z) : list Z :=
  filter (λ t, now - t < RATE_LIMIT_WINDOW) window.

(** Lines 62-68 once [now] has been read. *)
Definition check_rate_limit_at (now : Z) (client_id : string)
    (rl : gmap string (list Z)) : bool * gmap string (list Z) :=
  let window := prune now (default [] (rl !! client_id)) in
  if decide (RATE_LIMIT_MAX_REQUESTS <= Z.of_nat (length window))
  then (false, <[client_id := window]> rl)
  else (true, <[client_id := window ++ [now]]> rl).

Definition check_rate_limit (client_id : string) : M bool :=
  let! now := read_time in
  fun w =>
    let (ok, rl) := check_rate_limit_at now client_id (rate_limiter w) in
    (ok, set_rate_limiter rl w).

(** *** [chat_completion], lines 210-276

    [model_type] is not used by the body and is left out. *)

Definition bad_status (status_code : Z) : string :=
  "Error: LM Studio at " +:+ LMSTUDIO_HOST +:+ ":" +:+ LMSTUDIO_PORT
    +:+ " returned status code " +:+ pretty status_code.

Definition chat_messages (prompt system_prompt : string) : list (string * string) :=
  (if decide (system_prompt = EmptyString) then [] else [("system", system_prompt)])
    ++ [("user", prompt)].

(** Lines 255-276: the text returned for what the POST did. *)
Definition completion_text (resp : response) : string :=
  match resp with
  | Raises e => "Error generating completion: " +:+ e
  | Returns status_code choices =>
      if decide (status_code = 200) then
        match choices with
        | [] => "Error: No response generated"
        | content :: _ =>
            if decide (content = EmptyString) then "Error: Empty response from model"
            else content
        end
      else bad_status status_code
  end.

Definition chat_completion (prompt system_prompt : string) (temperature : Q)
    (max_tokens : Z) : M string :=
  let! ok := check_rate_limit "default" in
  if negb ok then ret RATE_LIMIT_EXCEEDED
  else
    let! resp := post (Request (chat_messages prompt system_prompt) temperature max_tokens) in
    ret (completion_text resp).

(** *** [offload_context], lines 279-356 *)

Definition offload_context (context_id context_data operation : string) : M string :=
  if decide (operation = "store") then
    let estimated_tokens := estimate_tokens context_data in
    if decide (MAX_CONTEXT_SIZE < estimated_tokens)
    then ret (context_too_large estimated_tokens MAX_CONTEXT_SIZE)
    else
      let! now := read_isoformat in
      let! cs := get_context_store in
      let! _ := put_context_store
                  (<[context_id := ContextEntry context_data now estimated_tokens]> cs) in
      ret (context_stored context_id estimated_tokens)
  else if decide (operation = "retrieve") then
    let! cs := get_context_store in
    match cs !! context_id with
    | None => ret (context_not_found context_id)
    | Some ctx => ret (context_retrieved ctx)
    end
  else if decide (operation = "summarize") then
    let! resp := chat_completion
                   ("Please summarize this context:" +:+ LF +:+ LF +:+ context_data)
                   SUMMARIZE_SYSTEM_PROMPT (3 # 10)%Q 500 in
    let! now := read_isoformat in
    let! cs := get_context_store in
    let! _ := put_context_store
                (<[context_id +:+ "_summary" :=
                     ContextEntry resp now (estimate_tokens resp)]> cs) in
    ret (summary_created resp)
  else if decide (operation = "analyze") then
    let! resp := chat_completion
                   ("Analyze this context and extract key information:" +:+ LF +:+ LF
                      +:+ context_data)
                   ANALYZE_SYSTEM_PROMPT (3 # 10)%Q 800 in
    ret (analysis_text resp)
  else ret (unknown_operation operation).

(** *** [automate_menial_task], lines 359-419 *)

Definition task_prompts (output_format task_type : string) : option string :=
  if decide (task_type = "format") then
    Some ("You are a formatting assistant. Format the following data as clean "
            +:+ output_format +:+ ". Be precise and consistent.")
  else if decide (task_type = "extract") then
    Some ("You are a data extraction assistant. Extract relevant information and present it as "
            +:+ output_format +:+ ".")
  else if decide (task_type = "transform") then
    Some ("You are a data transformation assistant. Transform the input according to common patterns and output as "
            +:+ output_format +:+ ".")
  else if decide (task_type = "validate") then
    Some "You are a validation assistant. Check the data for errors, inconsistencies, or issues. Report findings clearly."
  else if decide (task_type = "generate") then
    Some ("You are a content generation assistant. Generate appropriate content based on the input, formatted as "
            +:+ output_format +:+ ".")
  else None.

Definition format_hints (output_format : string) : option string :=
  if decide (output_format = "json") then Some (LF +:+ LF +:+ "Output valid JSON only.")
  else if decide (output_format = "markdown") then
    Some (LF +:+ LF +:+ "Use proper Markdown formatting.")
  else if decide (output_format = "code") then
    Some (LF +:+ LF +:+ "Output clean, properly formatted code.")
  else if decide (output_format = "text") then Some (LF +:+ LF +:+ "Output plain text.")
  else None.

Definition unknown_task_type (task_type : string) : string :=
  "❌ Unknown task type: " +:+ task_type
    +:+ ". Available types: format, extract, transform, validate, generate".

Definition automate_menial_task (task_type task_data output_format : string) : M string :=
  let! ok := check_rate_limit "default" in
  if negb ok then ret RATE_LIMIT_EXCEEDED
  else
    match task_prompts output_format task_type with
    | None => ret (unknown_task_type task_type)
    | Some system_prompt =>
        chat_completion
          ("Task: " +:+ task_type +:+ LF +:+ LF +:+ "Data:" +:+ LF +:+ task_data)
          (system_prompt +:+ default EmptyString (format_hints output_format))
          (3 # 10)%Q 2048
    end.

(** *** [batch_process], lines 422-493 *)

(** Lines 463-465: the prompt of one batch, items numbered from 1. *)
Fixpoint enumerate_items (idx : Z) (batch : list string) : string :=
  match batch with
  | [] => EmptyString
  | item :: rest =>
      pretty idx +:+ ". " +:+ item +:+ LF +:+ enumerate_items (idx + 1) rest
  end.

Definition batch_prompt (operation : string) (batch : list string) : string :=
  "Process these " +:+ pretty (length batch) +:+ " items with operation: " +:+ operation
    +:+ LF +:+ LF +:+ enumerate_items 1 batch.

Definition batch_request (operation : string) (batch : list string) : request :=
  Request (chat_messages (batch_prompt operation batch) BATCH_SYSTEM_PROMPT) (3 # 10)%Q 1024.

(** The loop of lines 452-479 over the values of
    [range(0, total_items, batch_size)] still to come; [results] is the
    list built so far.  The [asyncio.sleep(0.5)] between two batches only
    lets time pass, which the next reading of the clock shows. *)
Fixpoint batch_loop (items : list string) (operation : string) (batch_size : Z)
    (starts : list Z) (results : list string) : M (list string) :=
  match starts with
  | [] => ret results
  | i :: rest =>
      let total_items := Z.of_nat (length items) in
      let batch := slice items i (i + batch_size) in
      let batch_num := i / batch_size + 1 in
      let total_batches := (total_items + batch_size - 1) / batch_size in
      let! ok := check_rate_limit "default" in
      if negb ok then ret (results ++ [rate_limit_hit batch_num i])
      else
        let! resp := chat_completion (batch_prompt operation batch)
                       BATCH_SYSTEM_PROMPT (3 # 10)%Q 1024 in
        batch_loop items operation batch_size rest
          (results ++ [batch_header batch_num total_batches resp])
  end.

Definition batch_process (items : list string) (operation : string) (batch_size : Z)
    (combine_results : bool) : M batch_result :=
  match items with
  | [] => ret (BatchText NO_ITEMS)
  | _ :: _ =>
      let total_items := Z.of_nat (length items) in
      match py_range 0 total_items batch_size with
      | None => ret (BatchText RANGE_ZERO_STEP)
      | Some starts =>
          let! results := batch_loop items operation batch_size starts [] in
          if combine_results then ret (BatchText (String.concat BATCH_SEPARATOR results))
          else ret (BatchJson total_items
                      (Z.min (Z.of_nat (length results) * batch_size) total_items)
                      results)
      end
  end.

(** A run of the loop told by its admission checks.  [granted] has one
    flag for each batch whose check of line 458 passed: whether the check
    made inside [chat_completion] passed too.  [batch_replies] lists what
    line 468 then got for each of these batches, [p] being the number of
    POSTs made before: the text for the backend's answer to the request of
    the batch, or the rate-limit text of line 231; [batch_sent] lists the
    requests that went out. *)
Fixpoint batch_replies (operation : string) (p : nat) (batches : list (list string))
    (granted : list bool) : list string :=
  match batches, granted with
  | batch :: batches, true :: granted =>
      completion_text (requests_post p (batch_request operation batch))
        :: batch_replies operation (S p) batches granted
  | _ :: batches, false :: granted =>
      RATE_LIMIT_EXCEEDED :: batch_replies operation p batches granted
  | _, _ => []
  end.

Fixpoint batch_sent (operation : string) (batches : list (list string))
    (granted : list bool) : list request :=
  match batches, granted with
  | batch :: batches, true :: granted =>
      batch_request operation batch :: batch_sent operation batches granted
  | _ :: batches, false :: granted => batch_sent operation batches granted
  | _, _ => []
  end.

(** *** [clear_contexts], lines 544-568 *)

(** Line 561: the keys that contain the pattern. *)
Definition matched_keys (context_pattern : string)
    (cs : gmap string context_entry) : list string :=
  filter (λ k, str_in context_pattern k = true) (map_to_list cs).*1.

Definition clear_contexts (context_pattern : string) : M string :=
  let! cs := get_context_store in
  if decide (context_pattern = "*") then
    let count := size cs in
    let! _ := put_context_store ∅ in
    ret (cleared_all count)
  else
    let keys := matched_keys context_pattern cs in
    let! _ := put_context_store (foldl (λ m key, delete key m) cs keys) in
    ret (cleared_matching (length keys) context_pattern).

(** *** Runs of the rate limiter *)

(** [admitted client_id calls rl]: the calls of [calls], each a reading of
    the clock and the client that asks, are made in turn from the state
    [rl]; the result lists the timestamps of the calls of [client_id]
    that returned [True]. *)
Fixpoint admitted (client_id : string) (calls : list (Z * string))
    (rl : gmap string (list Z)) : list Z :=
  match calls with
  | [] => []
  | (now, c) :: rest =>
      let (ok, rl') := check_rate_limit_at now c rl in
      (if ok && bool_decide (c = client_id) then [now] else [])
        ++ admitted client_id rest rl'
  end.

(** The trailing window that ends at [a + RATE_LIMIT_WINDOW], its left end
    excluded. *)
Definition in_window (a t : Z) : Prop := a < t ≤ a + RATE_LIMIT_WINDOW.

(** The same interval with its left end included. *)
Definition in_closed_window (a t : Z) : Prop := a ≤ t ≤ a + RATE_LIMIT_WINDOW.

(** The admission check as the specification words it: only timestamps
    older than [now - RATE_LIMIT_WINDOW] are pruned. *)
Definition admit_as_specified (now : Z) (client_id : string)
    (rl : gmap string (list Z)) : bool * gmap string (list Z) :=
  let window := filter (λ t, ¬ t < now - RATE_LIMIT_WINDOW) (default [] (rl !! client_id)) in
  if decide (RATE_LIMIT_MAX_REQUESTS <= Z.of_nat (length window))
  then (false, <[client_id := window]> rl)
  else (true, <[client_id := window ++ [now]]> rl).

(** *** Sequences of tool calls *)

(** The body that [get_current_model] POSTs to [/chat/completions],
    lines 174-182. *)
Definition PROBE_REQUEST : request := Request [("user", "Hi")] (1 # 10)%Q 5.

(** What [get_current_model] does to the state: it sends its fixed request
    to [/chat/completions] without any admission check and touches
    neither dictionary.  (The text it answers, built from the "model"
    field of the reply, is not part of the state.) *)
Definition get_current_model_post (w : world) : world :=
  World (rate_limiter w) (context_store w) (clock_reads w) (posts w ++ [PROBE_REQUEST]).

(** What [get_sidekick_stats] does to the state: it reads the clock three
    times, twice on line 503 ([datetime.now()], and once more for the
    default of [os.getenv], which is evaluated whether or not the variable
    is set) and once on line 511, the reading [now] that its counters use;
    it reads the two dictionaries and changes neither. *)
Definition get_sidekick_stats_reads : M Z :=
  let! _ := read_isoformat in
  let! _ := read_isoformat in
  read_time.

(** A call of one of the ten tools.  [health_check] and [list_models] send
    a GET to [/models] and [load_model] a POST to [/models/load]; none of
    the three reads the clock, touches a dictionary or sends a completion
    request. *)
Inductive tool_call :=
| ChatCompletion (prompt system_prompt : string) (temperature : Q) (max_tokens : Z)
| OffloadContext (context_id context_data operation : string)
| AutomateMenialTask (task_type task_data output_format : string)
| BatchProcess (items : list string) (operation : string) (batch_size : Z)
    (combine_results : bool)
| ClearContexts (context_pattern : string)
| GetCurrentModel
| GetSidekickStats
| HealthCheck
| ListModels
| LoadModel (model_name : string).

(** The calls of [get_current_model]. *)
Definition is_probe (c : tool_call) : bool :=
  match c with
  | GetCurrentModel => true
  | _ => false
  end.

(** The state a call leaves. *)
Definition run_tool (c : tool_call) (w : world) : world :=
  match c with
  | ChatCompletion prompt system_prompt temperature max_tokens =>
      (chat_completion prompt system_prompt temperature max_tokens w).2
  | OffloadContext context_id context_data operation =>
      (offload_context context_id context_data operation w).2
  | AutomateMenialTask task_type task_data output_format =>
      (automate_menial_task task_type task_data output_format w).2
  | BatchProcess items operation batch_size combine_results =>
      (batch_process items operation batch_size combine_results w).2
  | ClearContexts context_pattern => (clear_contexts context_pattern w).2
  | GetCurrentModel => get_current_model_post w
  | GetSidekickStats => (get_sidekick_stats_reads w).2
  | HealthCheck | ListModels | LoadModel _ => w
  end.

(** The state after the calls of [calls], made one after the other. *)
Definition run_tools (calls : list tool_call) (w : world) : world :=
  foldl (λ w c, run_tool c w) w calls.

(** The calls whose code assigns to, or deletes from, [context_store]:
    [offload_context] with the operation "store" or "summarize", and
    [clear_contexts]. *)
Definition writes_context_store (c : tool_call) : bool :=
  match c with
  | OffloadContext _ _ operation =>
      bool_decide (operation = "store") || bool_decide (operation = "summarize")
  | ClearContexts _ => true
  | _ => false
  end.

(** The timestamps of "default" are readings of the clock. *)
Definition all_readings (rl : gmap string (list Z)) : Prop :=
  Forall (λ t, ∃ m : nat, t = time_time m) (default [] (rl !! "default")).

(** *** The request counters of [get_sidekick_stats], lines 506-512

    [total_requests] and [recent_requests] as the tool computes them from
    [rate_limiter], [now] being its reading of [time.time()]. *)
Definition total_requests (rl : gmap string (list Z)) : nat :=
  sum_list (length <$> (map_to_list rl).*2).

Definition recent_requests (now : Z) (rl : gmap string (list Z)) : nat :=
  sum_list ((λ requests, length (filter (λ t, now - RATE_LIMIT_WINDOW < t) requests))
              <$> (map_to_list rl).*2).

(** The two halves of the invariant of a stored entry. *)
Definition entry_consistent (e : context_entry) : Prop :=
  tokens e = estimate_tokens (data e).

Definition entry_bounded (e : context_entry) : Prop :=
  tokens e ≤ MAX_CONTEXT_SIZE.

(** A timestamp [t] recorded before the reading [n0] stays in the window
    of "default" through every later check until one of them, made at a
    reading [m] at which [t] is a full window old, prunes it. *)
Definition stamp_kept (t : Z) (n0 : nat) (rl : gmap string (list Z)) (n : nat) : Prop :=
  (n0 < n)%nat
  ∧ (t ∈ default [] (rl !! "default")
     ∨ ∃ m : nat, (n0 < m < n)%nat ∧ RATE_LIMIT_WINDOW ≤ time_time m - t).

(** ** Properties of the rate limiter *)

Lemma prune_prune_above now b window :
  now - RATE_LIMIT_WINDOW ≤ b →
  filter (λ t, b < t) (prune now window) = filter (λ t, b < t) window.
Proof.
  intros Hb. unfold prune. apply list_filter_filter_l. intros t Ht. lia.
Qed.

Lemma check_rate_limit_at_other now c c' rl :
  c ≠ c' → (check_rate_limit_at now c rl).2 !! c' = rl !! c'.
Proof.
  intros Hne. unfold check_rate_limit_at.
  case_decide; simpl; by rewrite lookup_insert_ne.
Qed.

Lemma check_rate_limit_at_same now c rl :
  let remaining := prune now (default [] (rl !! c)) in
  (check_rate_limit_at now c rl).2 !! c =
    Some (if (check_rate_limit_at now c rl).1 then remaining ++ [now] else remaining).
Proof.
  unfold check_rate_limit_at. case_decide; simpl; by rewrite lookup_insert_eq.
Qed.

Lemma check_rate_limit_at_true now c rl :
  (check_rate_limit_at now c rl).1 = true →
  Z.of_nat (length (prune now (default [] (rl !! c)))) < RATE_LIMIT_MAX_REQUESTS.
Proof.
  unfold check_rate_limit_at. case_decide; simpl; [done | lia].
Qed.

Lemma filter_window_above a (hist : list Z) :
  Forall (λ t, t ≤ a + RATE_LIMIT_WINDOW) hist →
  filter (in_window a) hist = filter (λ t, a < t) hist.
Proof.
  induction 1 as [|t l Ht _ IH]; [done |].
  rewrite !filter_cons, IH. unfold in_window.
  repeat case_decide; try done; lia.
Qed.

(** The state kept for a client agrees, above every threshold not older
    than the window of the latest call, with the history of the client's
    admitted timestamps; the bound follows along the run. *)
Lemma admitted_window_bound client a calls :
  ∀ rl hist latest,
    StronglySorted Z.le calls.*1 →
    Forall (λ t, latest ≤ t) calls.*1 →
    Forall (λ t, t ≤ latest) hist →
    (∀ b, latest - RATE_LIMIT_WINDOW ≤ b →
          filter (λ t, b < t) hist = filter (λ t, b < t) (default [] (rl !! client))) →
    Z.of_nat (length (filter (in_window a) hist)) ≤ Z.max 0 RATE_LIMIT_MAX_REQUESTS →
    Z.of_nat (length (filter (in_window a) (hist ++ admitted client calls rl)))
      ≤ Z.max 0 RATE_LIMIT_MAX_REQUESTS.
Proof.
  induction calls as [|[now c] rest IH]; intros rl hist latest Hs Hge Hle Hagree Hb.
  - simpl. by rewrite app_nil_r.
  - simpl in Hs, Hge. apply StronglySorted_inv in Hs as [Hs Hrest].
    apply Forall_cons in Hge as [Hnow _].
    assert (Hhist : Forall (λ t, t ≤ now) hist).
    { eapply Forall_impl; [exact Hle |]. simpl. intros; lia. }
    simpl.
    pose proof (check_rate_limit_at_other now c client rl) as Hother.
    pose proof (check_rate_limit_at_same now c rl) as Hsame.
    pose proof (check_rate_limit_at_true now c rl) as Htrue.
    destruct (check_rate_limit_at now c rl) as [ok rl'] eqn:Hstep.
    simpl in Hother, Hsame, Htrue.
    destruct (decide (c = client)) as [->|Hne].
    + rewrite bool_decide_eq_true_2 by done. rewrite andb_true_r.
      destruct ok.
      * rewrite app_assoc. apply (IH rl' (hist ++ [now]) now); try done.
        -- apply Forall_app; split; [done |]. by apply Forall_singleton.
        -- intros b Hbb. rewrite Hsame. simpl. rewrite !filter_app.
           rewrite prune_prune_above by done. f_equal. apply Hagree. lia.
        -- rewrite filter_app, length_app.
           destruct (decide (in_window a now)) as [Hin|Hout].
           ++ unfold in_window in Hin.
              rewrite filter_window_above.
              2:{ eapply Forall_impl; [exact Hhist |]. simpl. intros; lia. }
              rewrite (Hagree a) by lia.
              rewrite <- (prune_prune_above now a) by lia.
              pose proof (length_filter (λ t, a < t)
                            (prune now (default [] (rl !! client)))) as Hlen.
              specialize (Htrue eq_refl).
              assert (Hone : (length (filter (in_window a) [now]) ≤ 1)%nat)
                by apply (length_filter _ [now]).
              lia.
           ++ rewrite (filter_cons_False _ now) by done. simpl. lia.
      * simpl. apply (IH rl' hist now); try done.
        intros b Hbb. rewrite Hsame. simpl.
        rewrite prune_prune_above by done. apply Hagree. lia.
    + rewrite bool_decide_eq_false_2 by done. rewrite andb_false_r. simpl.
      apply (IH rl' hist now); try done.
      intros b Hbb. rewrite Hother by done. apply Hagree. lia.
Qed.

(** C1 (amended). From the empty rate limiter, along any sequence of
    admission checks made at clock readings that never go back, and for
    every client, the calls that return [True] with a timestamp in a
    window [(a, a + RATE_LIMIT_WINDOW]] (left end excluded) number at most
    [RATE_LIMIT_MAX_REQUESTS] (none at all when that constant is
    negative).  A check keeps exactly the timestamps [t] with
    [now - RATE_LIMIT_WINDOW < t], so one that is exactly
    [RATE_LIMIT_WINDOW] old is pruned too; it returns [False] and records
    nothing when [RATE_LIMIT_MAX_REQUESTS] or more remain, and otherwise
    appends [now] and returns [True]. *)
Theorem rate_limit_sliding_window (calls : list (Z * string)) :
  StronglySorted Z.le calls.*1 →
  (∀ client a,
      Z.of_nat (length (filter (in_window a) (admitted client calls ∅)))
        ≤ Z.max 0 RATE_LIMIT_MAX_REQUESTS)
  ∧ (∀ now client rl,
        let remaining :=
          filter (λ t, now - RATE_LIMIT_WINDOW < t) (default [] (rl !! client)) in
        (RATE_LIMIT_MAX_REQUESTS ≤ Z.of_nat (length remaining) →
           check_rate_limit_at now client rl = (false, <[client := remaining]> rl))
        ∧ (Z.of_nat (length remaining) < RATE_LIMIT_MAX_REQUESTS →
             check_rate_limit_at now client rl
               = (true, <[client := remaining ++ [now]]> rl))).
Proof.
  intros Hs. split.
  - intros client a.
    destruct calls as [|[t0 c0] rest] eqn:Hcalls; [simpl; lia |].
    rewrite <- Hcalls in *.
    apply (admitted_window_bound client a calls ∅ [] t0); try done.
    + subst calls. simpl in *. apply StronglySorted_inv in Hs as [_ Hall].
      apply Forall_cons; split; [lia | done].
    + simpl. lia.
  - intros now client rl remaining.
    assert (Heq : remaining = prune now (default [] (rl !! client))).
    { unfold remaining, prune. apply list_filter_iff. intros t; lia. }
    unfold check_rate_limit_at. rewrite <- Heq.
    split; intros Hlen; case_decide; try done; lia.
Qed.

(** ** The gateway *)

(** The net effect of [chat_completion]: one reading of the clock, one
    admission check for "default", and one POST when it is granted. *)
Lemma chat_completion_unfold prompt system_prompt temperature max_tokens w :
  chat_completion prompt system_prompt temperature max_tokens w =
    let req := Request (chat_messages prompt system_prompt) temperature max_tokens in
    let (ok, rl) :=
      check_rate_limit_at (time_time (clock_reads w)) "default" (rate_limiter w) in
    if ok
    then (completion_text (requests_post (length (posts w)) req),
          World rl (context_store w) (S (clock_reads w)) (posts w ++ [req]))
    else (RATE_LIMIT_EXCEEDED,
          World rl (context_store w) (S (clock_reads w)) (posts w)).
Proof.
  unfold chat_completion, bind, check_rate_limit, bind, read_time, post, ret. simpl.
  by destruct (check_rate_limit_at _ _ _) as [[] rl].
Qed.

Lemma check_rate_limit_unfold client_id w :
  check_rate_limit client_id w =
    let (ok, rl) :=
      check_rate_limit_at (time_time (clock_reads w)) client_id (rate_limiter w) in
    (ok, World rl (context_store w) (S (clock_reads w)) (posts w)).
Proof.
  unfold check_rate_limit, bind, read_time. simpl.
  by destruct (check_rate_limit_at _ _ _).
Qed.

Lemma check_rate_limit_at_full now c rl :
  RATE_LIMIT_MAX_REQUESTS ≤ Z.of_nat (length (prune now (default [] (rl !! c)))) →
  check_rate_limit_at now c rl = (false, <[c := prune now (default [] (rl !! c))]> rl).
Proof. intros Hfull. unfold check_rate_limit_at. by rewrite decide_True. Qed.

(** C6. [chat_completion] makes its admission check, for the client
    "default", before anything else.  When the check refuses, the answer is
    the rate-limit text and no POST is issued; when it grants, exactly one
    timestamp, [now], is appended to the pruned window and one POST is
    issued, and the window keeps that timestamp whatever the POST does,
    failures included. *)
Theorem chat_completion_admission (prompt system_prompt : string) (temperature : Q)
    (max_tokens : Z) (w : world) :
  let now := time_time (clock_reads w) in
  let remaining := prune now (default [] (rate_limiter w !! "default")) in
  let req := Request (chat_messages prompt system_prompt) temperature max_tokens in
  let (text, w') := chat_completion prompt system_prompt temperature max_tokens w in
  if decide (RATE_LIMIT_MAX_REQUESTS ≤ Z.of_nat (length remaining))
  then text = RATE_LIMIT_EXCEEDED
       ∧ posts w' = posts w
       ∧ rate_limiter w' = <["default" := remaining]> (rate_limiter w)
  else text = completion_text (requests_post (length (posts w)) req)
       ∧ posts w' = posts w ++ [req]
       ∧ rate_limiter w' = <["default" := remaining ++ [now]]> (rate_limiter w).
Proof.
  intros now remaining req. rewrite chat_completion_unfold.
  unfold check_rate_limit_at. fold now remaining.
  case_decide; simpl; done.
Qed.

(** ** Properties of the context store *)

Lemma offload_store context_id context_data w :
  offload_context context_id context_data "store" w =
    if decide (MAX_CONTEXT_SIZE < estimate_tokens context_data)
    then (context_too_large (estimate_tokens context_data) MAX_CONTEXT_SIZE, w)
    else (context_stored context_id (estimate_tokens context_data),
          World (rate_limiter w)
                (<[context_id := ContextEntry context_data (datetime_now (clock_reads w))
                                   (estimate_tokens context_data)]> (context_store w))
                (S (clock_reads w)) (posts w)).
Proof.
  unfold offload_context. rewrite decide_True by done.
  case_decide; reflexivity.
Qed.

(** C5. [store] with more than [MAX_CONTEXT_SIZE] estimated tokens answers
    "Context too large", naming the estimate and the maximum, and leaves
    the whole state as it was; otherwise it binds the id to the new entry,
    every other id keeping its entry, and answers with the id and the
    estimated token count in decimal. *)
Theorem store_size_check (context_id context_data : string) (w : world) :
  let estimated_tokens := estimate_tokens context_data in
  let (text, w') := offload_context context_id context_data "store" w in
  if decide (MAX_CONTEXT_SIZE < estimated_tokens)
  then text = "⚠️ Context too large (" +:+ pretty estimated_tokens
                +:+ " tokens). Maximum is " +:+ pretty MAX_CONTEXT_SIZE +:+ " tokens."
       ∧ w' = w
  else text = "✅ Context stored successfully. ID: " +:+ context_id +:+ " ("
                +:+ pretty estimated_tokens +:+ " tokens)"
       ∧ context_store w' !! context_id
           = Some (ContextEntry context_data (datetime_now (clock_reads w)) estimated_tokens)
       ∧ (∀ other, other ≠ context_id →
                   context_store w' !! other = context_store w !! other)
       ∧ rate_limiter w' = rate_limiter w
       ∧ posts w' = posts w.
Proof.
  intros estimated_tokens. rewrite offload_store. fold estimated_tokens.
  case_decide; [done |]. simpl.
  split; [done |]. split; [by rewrite lookup_insert_eq |].
  split; [| done]. intros other Hne. by rewrite lookup_insert_ne.
Qed.

(** The branch of [offload_context] that a literal operation selects. *)
Ltac pick_operation :=
  unfold offload_context;
  repeat first [ rewrite decide_True by reflexivity
               | rewrite decide_False by discriminate ].

Lemma offload_retrieve context_id context_data w :
  offload_context context_id context_data "retrieve" w =
    (match context_store w !! context_id with
     | None => context_not_found context_id
     | Some ctx => context_retrieved ctx
     end, w).
Proof.
  pick_operation. unfold bind, get_context_store, ret.
  by destruct (context_store w !! context_id).
Qed.

Lemma offload_summarize context_id context_data w :
  offload_context context_id context_data "summarize" w =
    let (resp, w1) :=
      chat_completion ("Please summarize this context:" +:+ LF +:+ LF +:+ context_data)
        SUMMARIZE_SYSTEM_PROMPT (3 # 10)%Q 500 w in
    (summary_created resp,
     World (rate_limiter w1)
           (<[context_id +:+ "_summary" :=
                ContextEntry resp (datetime_now (clock_reads w1)) (estimate_tokens resp)]>
              (context_store w1))
           (S (clock_reads w1)) (posts w1)).
Proof.
  pick_operation. unfold bind at 1.
  by destruct (chat_completion _ _ _ _ w) as [resp w1].
Qed.

Lemma offload_analyze context_id context_data w :
  offload_context context_id context_data "analyze" w =
    let (resp, w1) :=
      chat_completion
        ("Analyze this context and extract key information:" +:+ LF +:+ LF +:+ context_data)
        ANALYZE_SYSTEM_PROMPT (3 # 10)%Q 800 w in
    (analysis_text resp, w1).
Proof.
  pick_operation. unfold bind at 1.
  by destruct (chat_completion _ _ _ _ w) as [resp w1].
Qed.

(** C9. When [store] accepts the data, it answers with the estimated
    token count, and a [retrieve] of the same id right after it finds an
    entry that holds exactly those data and that count; the text it hands
    back carries the data, unchanged, between the heading and the footer,
    and, in the footer, the time of the store and the same count, and the
    state is not changed. *)
Theorem store_retrieve_roundtrip (context_id context_data ignored : string) (w : world) :
  estimate_tokens context_data ≤ MAX_CONTEXT_SIZE →
  ∃ ctx w1,
    offload_context context_id context_data "store" w
      = ("✅ Context stored successfully. ID: " +:+ context_id +:+ " ("
           +:+ pretty (estimate_tokens context_data) +:+ " tokens)", w1)
    ∧ context_store w1 !! context_id = Some ctx
    ∧ data ctx = context_data
    ∧ tokens ctx = estimate_tokens context_data
    ∧ timestamp ctx = datetime_now (clock_reads w)
    ∧ offload_context context_id ignored "retrieve" w1
        = ("📋 Context retrieved:" +:+ LF +:+ LF +:+ context_data +:+ LF +:+ LF
             +:+ "(Stored: " +:+ timestamp ctx +:+ ", "
             +:+ pretty (estimate_tokens context_data) +:+ " tokens)", w1).
Proof.
  intros Hfit.
  pose proof (offload_store context_id context_data w) as Hstore.
  rewrite decide_False in Hstore by lia.
  eexists _, _. split; [exact Hstore |].
  rewrite offload_retrieve. simpl. rewrite lookup_insert_eq. done.
Qed.

(** [chat_completion] never touches the context store. *)
Lemma chat_completion_context_store prompt system_prompt temperature max_tokens w :
  context_store (chat_completion prompt system_prompt temperature max_tokens w).2
    = context_store w.
Proof.
  rewrite chat_completion_unfold.
  by destruct (check_rate_limit_at _ _ _) as [[] rl].
Qed.

Lemma chat_messages_system prompt system_prompt :
  system_prompt ≠ EmptyString →
  chat_messages prompt system_prompt = [("system", system_prompt); ("user", prompt)].
Proof. intros Hne. unfold chat_messages. by rewrite decide_False. Qed.

(** C2 (amended). [summarize] and [analyze] never look the id up in the
    store.  Each hands the data it is given, after a fixed introduction,
    to [chat_completion] with its own system prompt, a temperature of 0.3
    and 500 or 800 tokens, and returns the reply under its heading;
    [summarize] also stores the reply under the id followed by "_summary".
    So, when the admission check grants, exactly one request carrying the
    data is sent and the answer is the heading followed by what the backend
    replied; when it refuses, nothing is sent and the answer is the heading
    followed by the rate-limit text.  The answer is the same whatever the
    store holds and is never the "not found" text; that text is the answer
    of [retrieve] alone, for an id that is absent. *)
Theorem derive_ignores_store (context_id context_data : string) (w : world) :
  let summarize_prompt := "Please summarize this context:" +:+ LF +:+ LF +:+ context_data in
  let analyze_prompt :=
    "Analyze this context and extract key information:" +:+ LF +:+ LF +:+ context_data in
  let summarize_request :=
    Request [("system", SUMMARIZE_SYSTEM_PROMPT); ("user", summarize_prompt)] (3 # 10)%Q 500 in
  let analyze_request :=
    Request [("system", ANALYZE_SYSTEM_PROMPT); ("user", analyze_prompt)] (3 # 10)%Q 800 in
  let remaining :=
    prune (time_time (clock_reads w)) (default [] (rate_limiter w !! "default")) in
  let summarized := offload_context context_id context_data "summarize" w in
  let analyzed := offload_context context_id context_data "analyze" w in
  (summarized =
     let (reply, w1) :=
       chat_completion summarize_prompt SUMMARIZE_SYSTEM_PROMPT (3 # 10)%Q 500 w in
     ("📝 Summary created:" +:+ LF +:+ LF +:+ reply,
      World (rate_limiter w1)
            (<[context_id +:+ "_summary" :=
                 ContextEntry reply (datetime_now (clock_reads w1)) (estimate_tokens reply)]>
               (context_store w))
            (S (clock_reads w1)) (posts w1)))
  ∧ (analyzed =
       let (reply, w1) :=
         chat_completion analyze_prompt ANALYZE_SYSTEM_PROMPT (3 # 10)%Q 800 w in
       ("🔍 Analysis:" +:+ LF +:+ LF +:+ reply, w1))
  ∧ (if decide (RATE_LIMIT_MAX_REQUESTS ≤ Z.of_nat (length remaining))
     then posts summarized.2 = posts w
          ∧ posts analyzed.2 = posts w
          ∧ summarized.1
              = "📝 Summary created:" +:+ LF +:+ LF
                  +:+ "⚠️ Rate limit exceeded. Please wait a moment before trying again."
          ∧ analyzed.1
              = "🔍 Analysis:" +:+ LF +:+ LF
                  +:+ "⚠️ Rate limit exceeded. Please wait a moment before trying again."
     else posts summarized.2 = posts w ++ [summarize_request]
          ∧ posts analyzed.2 = posts w ++ [analyze_request]
          ∧ summarized.1
              = "📝 Summary created:" +:+ LF +:+ LF
                  +:+ completion_text (requests_post (length (posts w)) summarize_request)
          ∧ analyzed.1
              = "🔍 Analysis:" +:+ LF +:+ LF
                  +:+ completion_text (requests_post (length (posts w)) analyze_request))
  ∧ (∀ cs,
        (offload_context context_id context_data "summarize" (set_context_store cs w)).1
          = summarized.1
        ∧ (offload_context context_id context_data "analyze" (set_context_store cs w)).1
          = analyzed.1)
  ∧ summarized.1 ≠ "❌ Context ID '" +:+ context_id +:+ "' not found."
  ∧ analyzed.1 ≠ "❌ Context ID '" +:+ context_id +:+ "' not found."
  ∧ (context_store w !! context_id = None →
     (offload_context context_id context_data "retrieve" w).1
       = "❌ Context ID '" +:+ context_id +:+ "' not found.").
Proof.
  intros summarize_prompt analyze_prompt summarize_request analyze_request remaining
         summarized analyzed.
  assert (Hchat : ∀ prompt sp t mt cs,
             (chat_completion prompt sp t mt (set_context_store cs w)).1
               = (chat_completion prompt sp t mt w).1).
  { intros. rewrite !chat_completion_unfold. simpl.
    by destruct (check_rate_limit_at _ _ _) as [[] rl]. }
  assert (Hsum : summarized =
            let (reply, w1) :=
              chat_completion summarize_prompt SUMMARIZE_SYSTEM_PROMPT (3 # 10)%Q 500 w in
            ("📝 Summary created:" +:+ LF +:+ LF +:+ reply,
             World (rate_limiter w1)
                   (<[context_id +:+ "_summary" :=
                        ContextEntry reply (datetime_now (clock_reads w1))
                          (estimate_tokens reply)]> (context_store w))
                   (S (clock_reads w1)) (posts w1))).
  { unfold summarized. rewrite offload_summarize. fold summarize_prompt.
    pose proof (chat_completion_context_store summarize_prompt SUMMARIZE_SYSTEM_PROMPT
                  (3 # 10)%Q 500 w) as Hcs.
    destruct (chat_completion _ _ _ _ w) as [reply w1]. simpl in Hcs. by rewrite Hcs. }
  assert (Hana : analyzed =
            let (reply, w1) :=
              chat_completion analyze_prompt ANALYZE_SYSTEM_PROMPT (3 # 10)%Q 800 w in
            ("🔍 Analysis:" +:+ LF +:+ LF +:+ reply, w1)).
  { unfold analyzed. by rewrite offload_analyze. }
  split; [exact Hsum |]. split; [exact Hana |].
  split; [| split; [| split; [| split]]].
  - rewrite Hsum, Hana, !chat_completion_unfold.
    rewrite !chat_messages_system by discriminate.
    fold summarize_request analyze_request.
    unfold check_rate_limit_at. fold remaining.
    case_decide; simpl; done.
  - intros cs. unfold summarized, analyzed.
    rewrite !offload_summarize, !offload_analyze.
    pose proof (Hchat ("Please summarize this context:" +:+ LF +:+ LF +:+ context_data)
                  SUMMARIZE_SYSTEM_PROMPT (3 # 10)%Q 500 cs) as H1.
    pose proof (Hchat ("Analyze this context and extract key information:" +:+ LF +:+ LF
                         +:+ context_data)
                  ANALYZE_SYSTEM_PROMPT (3 # 10)%Q 800 cs) as H2.
    do 2 destruct (chat_completion _ _ _ 500 _). do 2 destruct (chat_completion _ _ _ 800 _).
    simpl in *. by subst.
  - rewrite Hsum. destruct (chat_completion summarize_prompt _ _ _ w) as [reply w1].
    simpl. intros Heq. apply (f_equal (String.get 0)) in Heq. vm_compute in Heq.
    clear -Heq. discriminate Heq.
  - rewrite Hana. destruct (chat_completion analyze_prompt _ _ _ w) as [reply w1].
    simpl. intros Heq. apply (f_equal (String.get 0)) in Heq. vm_compute in Heq.
    clear -Heq. discriminate Heq.
  - intros Habsent. by rewrite offload_retrieve, Habsent.
Qed.

(** What [summarize] leaves in the store: the reply, whatever its size. *)
Lemma summarize_persists context_id context_data w :
  let (text, w') := offload_context context_id context_data "summarize" w in
  ∃ resp ts,
    text = summary_created resp
    ∧ context_store w' =
        <[context_id +:+ "_summary" := ContextEntry resp ts (estimate_tokens resp)]>
          (context_store w).
Proof.
  rewrite offload_summarize.
  pose proof (chat_completion_context_store
                ("Please summarize this context:" +:+ LF +:+ LF +:+ context_data)
                SUMMARIZE_SYSTEM_PROMPT (3 # 10)%Q 500 w) as Hcs.
  destruct (chat_completion _ _ _ _ w) as [resp w1]. simpl in *.
  exists resp, (datetime_now (clock_reads w1)). by rewrite Hcs.
Qed.

(** Every operation of [offload_context] keeps the token count of every
    stored entry equal to the estimate of its data. *)
Lemma offload_context_consistent context_id context_data operation w :
  map_Forall (λ _ e, entry_consistent e) (context_store w) →
  map_Forall (λ _ e, entry_consistent e)
    (context_store (offload_context context_id context_data operation w).2).
Proof.
  intros Hinv.
  destruct (decide (operation = "store")) as [->|Hstore].
  { rewrite offload_store. case_decide; [done |]. simpl.
    by apply map_Forall_insert_2. }
  destruct (decide (operation = "retrieve")) as [->|Hretrieve].
  { by rewrite offload_retrieve. }
  destruct (decide (operation = "summarize")) as [->|Hsummarize].
  { pose proof (summarize_persists context_id context_data w) as Hsum.
    destruct (offload_context _ _ "summarize" w) as [text w'].
    destruct Hsum as (resp & ts & _ & Hcs). simpl. rewrite Hcs.
    by apply map_Forall_insert_2. }
  destruct (decide (operation = "analyze")) as [->|Hanalyze].
  { rewrite offload_analyze.
    pose proof (chat_completion_context_store
                  ("Analyze this context and extract key information:" +:+ LF +:+ LF
                     +:+ context_data)
                  ANALYZE_SYSTEM_PROMPT (3 # 10)%Q 800 w) as Hcs.
    destruct (chat_completion _ _ _ _ w) as [resp w1]. simpl in *. by rewrite Hcs. }
  unfold offload_context. by rewrite !decide_False.
Qed.

(** [store] also keeps every stored entry within [MAX_CONTEXT_SIZE]. *)
Lemma offload_store_bounded context_id context_data w :
  map_Forall (λ _ e, entry_bounded e) (context_store w) →
  map_Forall (λ _ e, entry_bounded e)
    (context_store (offload_context context_id context_data "store" w).2).
Proof.
  intros Hinv. rewrite offload_store. case_decide; [done |]. simpl.
  apply map_Forall_insert_2; [| done]. unfold entry_bounded. simpl. lia.
Qed.

(** ** One budget for every tool *)

Lemma check_rate_limit_other c c' w :
  c ≠ c' → rate_limiter (check_rate_limit c w).2 !! c' = rate_limiter w !! c'.
Proof.
  intros Hne. rewrite check_rate_limit_unfold.
  pose proof (check_rate_limit_at_other (time_time (clock_reads w)) c c'
                (rate_limiter w) Hne) as Hother.
  by destruct (check_rate_limit_at _ _ _).
Qed.

Lemma chat_completion_other c prompt system_prompt temperature max_tokens w :
  c ≠ "default" →
  rate_limiter (chat_completion prompt system_prompt temperature max_tokens w).2 !! c
    = rate_limiter w !! c.
Proof.
  intros Hne. rewrite chat_completion_unfold.
  pose proof (check_rate_limit_at_other (time_time (clock_reads w)) "default" c
                (rate_limiter w)) as Hother.
  destruct (check_rate_limit_at _ _ _) as [[] rl]; simpl in *; by apply Hother.
Qed.

Lemma automate_menial_task_other c task_type task_data output_format w :
  c ≠ "default" →
  rate_limiter (automate_menial_task task_type task_data output_format w).2 !! c
    = rate_limiter w !! c.
Proof.
  intros Hne. unfold automate_menial_task, bind at 1.
  pose proof (check_rate_limit_other "default" c w) as Hcheck.
  destruct (check_rate_limit "default" w) as [[] w1]; simpl in *.
  - destruct (task_prompts output_format task_type); simpl.
    + rewrite chat_completion_other by done. by apply Hcheck.
    + by apply Hcheck.
  - by apply Hcheck.
Qed.

Lemma batch_loop_other c items operation batch_size starts :
  c ≠ "default" →
  ∀ results w,
    rate_limiter (batch_loop items operation batch_size starts results w).2 !! c
      = rate_limiter w !! c.
Proof.
  intros Hne. induction starts as [|i rest IH]; intros results w; [done |].
  simpl. unfold bind at 1.
  pose proof (check_rate_limit_other "default" c w) as Hcheck.
  destruct (check_rate_limit "default" w) as [[] w1]; simpl in *.
  - unfold bind at 1.
    pose proof (chat_completion_other c
                  (batch_prompt operation (slice items i (i + batch_size)))
                  BATCH_SYSTEM_PROMPT (3 # 10)%Q 1024 w1 Hne) as Hchat.
    destruct (chat_completion _ _ _ _ w1) as [resp w2]. simpl in *.
    rewrite IH, Hchat. by apply Hcheck.
  - by apply Hcheck.
Qed.

Lemma batch_process_other c items operation batch_size combine_results w :
  c ≠ "default" →
  rate_limiter (batch_process items operation batch_size combine_results w).2 !! c
    = rate_limiter w !! c.
Proof.
  intros Hne. unfold batch_process. destruct items as [|item items]; [done |].
  destruct (py_range _ _ _) as [starts|]; [| done].
  unfold bind.
  pose proof (batch_loop_other c (item :: items) operation batch_size starts Hne [] w)
    as Hloop.
  destruct (batch_loop _ _ _ _ _ w) as [results w1].
  by destruct combine_results.
Qed.

Lemma check_rate_limit_full w :
  RATE_LIMIT_MAX_REQUESTS
    ≤ Z.of_nat (length (prune (time_time (clock_reads w))
                          (default [] (rate_limiter w !! "default")))) →
  (check_rate_limit "default" w).1 = false.
Proof.
  intros Hfull. rewrite check_rate_limit_unfold, check_rate_limit_at_full; done.
Qed.

(** ** Clearing the context store *)

Lemma append_cons c (p b : string) : String c p +:+ b = String c (p +:+ b).
Proof. reflexivity. Qed.

Lemma startswith_spec p s : startswith p s = true ↔ ∃ b, s = p +:+ b.
Proof.
  revert s. induction p as [|c p IH]; intros s; simpl.
  - split; [intros _; by exists s | done].
  - destruct s as [|d s].
    + split; [done | intros [b Hb]; discriminate].
    + destruct (Ascii.eqb c d) eqn:Hcd.
      * apply Ascii.eqb_eq in Hcd as ->. rewrite IH.
        split; intros [b Hb]; exists b; rewrite append_cons in *; congruence.
      * apply Ascii.eqb_neq in Hcd.
        split; [done | intros [b Hb]; rewrite append_cons in Hb; congruence].
Qed.

Lemma str_in_unfold p s :
  str_in p s =
    startswith p s || match s with EmptyString => false | String _ s' => str_in p s' end.
Proof. by destruct s. Qed.

(** The substring test of line 561 decides [is_substring]. *)
Lemma str_in_spec p s : str_in p s = true ↔ is_substring p s.
Proof.
  split.
  - induction s as [|c s IH]; rewrite str_in_unfold; intros Hin;
      apply orb_true_iff in Hin as [Hstart|Hrest]; try done.
    + apply startswith_spec in Hstart as [b Hb]. by exists EmptyString, b.
    + apply startswith_spec in Hstart as [b Hb]. by exists EmptyString, b.
    + destruct (IH Hrest) as (a & b & ->). by exists (String c a), b.
  - intros (a & b & ->). induction a as [|c a IH].
    + rewrite str_in_unfold.
      apply orb_true_iff; left. apply startswith_spec. by exists b.
    + rewrite append_cons, str_in_unfold, IH. apply orb_true_r.
Qed.

Lemma foldl_delete_lookup (keys : list string) :
  ∀ (m : gmap string context_entry) k,
    foldl (λ m key, delete key m) m keys !! k
      = if decide (k ∈ keys) then None else m !! k.
Proof.
  induction keys as [|key keys IH]; intros m k.
  - case_decide as Hin; [by apply elem_of_nil in Hin | done].
  - change (foldl (λ m key, delete key m) m (key :: keys))
      with (foldl (λ m key, delete key m) (delete key m) keys).
    rewrite IH.
    destruct (decide (k ∈ keys)) as [Hin|Hout];
      destruct (decide (k ∈ key :: keys)) as [Hin'|Hout']; try done.
    + exfalso. apply Hout'. by right.
    + apply elem_of_cons in Hin' as [->|Hin']; [apply lookup_delete_eq | done].
    + apply lookup_delete_ne. intros ->. apply Hout'. by left.
Qed.

Lemma foldl_delete_size (keys : list string) :
  ∀ m : gmap string context_entry,
    NoDup keys →
    (∀ k, k ∈ keys → is_Some (m !! k)) →
    (size (foldl (λ m key, delete key m) m keys) + length keys = size m)%nat.
Proof.
  induction keys as [|key keys IH]; intros m Hnd Hin; simpl; [lia |].
  apply NoDup_cons in Hnd as [Hfresh Hnd].
  assert (is_Some (m !! key)) as Hkey by (apply Hin; left).
  assert (Hrec : (size (foldl (λ m key, delete key m) (delete key m) keys) + length keys
                  = size (delete key m))%nat).
  { apply IH; [done |]. intros k Hk.
    rewrite lookup_delete_ne by (intros ->; done). apply Hin. by right. }
  rewrite map_size_delete_Some in Hrec by done.
  assert (size m ≠ 0%nat); [| lia].
  intros Hz. apply map_size_empty_iff in Hz. subst m.
  destruct Hkey as [e He]. by rewrite lookup_empty in He.
Qed.

Lemma elem_of_matched_keys context_pattern (cs : gmap string context_entry) k :
  k ∈ matched_keys context_pattern cs ↔ str_in context_pattern k = true ∧ is_Some (cs !! k).
Proof.
  unfold matched_keys. rewrite list_elem_of_filter, list_elem_of_fmap.
  split.
  - intros [Hin ([k' e] & -> & Hmem)]. split; [done |].
    apply elem_of_map_to_list in Hmem. by exists e.
  - intros [Hin [e He]]. split; [done |].
    exists (k, e). split; [done |]. by apply elem_of_map_to_list.
Qed.

(** C8. [clear_contexts] touches only the context store.  With the
    pattern "*" it empties the store and its answer gives, in decimal, how
    many entries there were; with any other pattern it removes exactly the
    entries whose id contains the pattern as a substring, keeps every other
    entry as it was, and its answer gives, in decimal, how many entries it
    removed. *)
Theorem clear_contexts_removes (context_pattern : string) (w : world) :
  let (text, w') := clear_contexts context_pattern w in
  rate_limiter w' = rate_limiter w
  ∧ posts w' = posts w
  ∧ if decide (context_pattern = "*")
    then context_store w' = ∅
         ∧ text = "🧹 Cleared all " +:+ pretty (size (context_store w))
                    +:+ " stored contexts."
    else (∀ k, is_substring context_pattern k → context_store w' !! k = None)
         ∧ (∀ k, ¬ is_substring context_pattern k →
                 context_store w' !! k = context_store w !! k)
         ∧ (size (context_store w') ≤ size (context_store w))%nat
         ∧ text = "🧹 Cleared "
                    +:+ pretty (size (context_store w) - size (context_store w'))%nat
                    +:+ " contexts matching '" +:+ context_pattern +:+ "'.".
Proof.
  unfold clear_contexts, bind, get_context_store, put_context_store, ret.
  case_decide as Hstar; simpl; [done |].
  split; [done |]. split; [done |].
  set (cs := context_store w). set (keys := matched_keys context_pattern cs).
  assert (Hsize : (size (foldl (λ m key, delete key m) cs keys) + length keys
                   = size cs)%nat).
  { apply foldl_delete_size.
    - unfold keys, matched_keys. apply NoDup_filter, NoDup_fst_map_to_list.
    - intros k Hk. by apply elem_of_matched_keys in Hk as [_ Hsome]. }
  split; [| split; [| split]].
  - intros k Hsub. apply str_in_spec in Hsub. rewrite foldl_delete_lookup.
    case_decide as Hin; [done |].
    destruct (cs !! k) as [e|] eqn:He; [| done].
    exfalso. apply Hin, elem_of_matched_keys. eauto.
  - intros k Hsub. rewrite foldl_delete_lookup.
    case_decide as Hin; [| done].
    exfalso. apply Hsub, str_in_spec. by apply elem_of_matched_keys in Hin as [Hin _].
  - lia.
  - replace (size cs - size (foldl (λ m key, delete key m) cs keys))%nat
      with (length keys) by lia.
    done.
Qed.

(** ** Batches *)

(** [range_up] with enough fuel lists [i], [i + step], ... below [stop]. *)
Lemma range_up_spec (stop step : Z) :
  0 < step →
  ∀ fuel i,
    stop - i ≤ Z.of_nat fuel →
    range_up fuel i stop step
      = (λ j : nat, i + Z.of_nat j * step) <$> seq 0 (Z.to_nat ((stop - i + step - 1) / step)).
Proof.
  intros Hstep.
  assert (Hdone : ∀ i, stop ≤ i → Z.to_nat ((stop - i + step - 1) / step) = 0%nat).
  { intros i Hi.
    assert ((stop - i + step - 1) / step < 1); [| lia].
    apply Z.div_lt_upper_bound; lia. }
  induction fuel as [|fuel IH]; intros i Hfuel.
  - simpl. by rewrite Hdone by lia.
  - simpl. case_decide as Hlt.
    + rewrite IH by lia.
      replace (stop - i + step - 1) with ((stop - (i + step) + step - 1) + 1 * step) by lia.
      rewrite Z.div_add by lia.
      assert (0 ≤ (stop - (i + step) + step - 1) / step) by (apply Z.div_pos; lia).
      rewrite Z2Nat.inj_add by lia.
      rewrite Nat.add_comm. simpl.
      f_equal; [lia |].
      rewrite <- fmap_S_seq, <- list_fmap_compose.
      apply list_fmap_ext. intros _ j _. simpl. lia.
    + by rewrite Hdone by lia.
Qed.

(** The batches, indexed by their rank. *)
Lemma chunks_spec {A} (items : list A) (batch_size : Z) :
  0 < batch_size →
  chunks items batch_size
    = (λ j : nat, take (Z.to_nat batch_size) (drop (j * Z.to_nat batch_size) items))
        <$> seq 0 (Z.to_nat ((Z.of_nat (length items) + batch_size - 1) / batch_size)).
Proof.
  intros Hpos. unfold chunks, py_range.
  rewrite decide_False by lia. rewrite decide_True by done.
  rewrite range_up_spec by lia.
  rewrite Z.sub_0_r, <- list_fmap_compose.
  apply list_fmap_ext. intros _ j _. simpl. unfold slice.
  f_equal; [f_equal; lia |]. f_equal.
  rewrite Z.add_0_l, Z2Nat.inj_mul by lia. lia.
Qed.


Lemma concat_chunks_take {A} (items : list A) (size n : nat) :
  concat ((λ j : nat, take size (drop (j * size) items)) <$> seq 0 n)
    = take (n * size) items.
Proof.
  induction n as [|n IH]; [done |].
  rewrite seq_S, fmap_app, concat_app, IH. simpl.
  rewrite app_nil_r, take_take_drop. f_equal. lia.
Qed.

Lemma check_rate_limit_posts c w : posts (check_rate_limit c w).2 = posts w.
Proof. rewrite check_rate_limit_unfold. by destruct (check_rate_limit_at _ _ _). Qed.

Lemma chat_completion_posts prompt system_prompt temperature max_tokens w :
  ∃ sent,
    posts (chat_completion prompt system_prompt temperature max_tokens w).2 = posts w ++ sent
    ∧ sublist sent [Request (chat_messages prompt system_prompt) temperature max_tokens].
Proof.
  rewrite chat_completion_unfold.
  destruct (check_rate_limit_at _ _ _) as [[] rl]; simpl.
  - by eexists.
  - exists []. rewrite app_nil_r. split; [done |]. apply sublist_nil_l.
Qed.

(** One turn of the loop of lines 452-479. *)
Lemma batch_loop_cons items operation batch_size i rest results w :
  batch_loop items operation batch_size (i :: rest) results w =
    let (ok, w1) := check_rate_limit "default" w in
    if ok then
      let (resp, w2) :=
        chat_completion (batch_prompt operation (slice items i (i + batch_size)))
          BATCH_SYSTEM_PROMPT (3 # 10)%Q 1024 w1 in
      batch_loop items operation batch_size rest
        (results ++ [batch_header (i / batch_size + 1)
                       ((Z.of_nat (length items) + batch_size - 1) / batch_size) resp]) w2
    else (results ++ [rate_limit_hit (i / batch_size + 1) i], w1).
Proof.
  simpl. unfold bind at 1.
  destruct (check_rate_limit "default" w) as [[] w1]; simpl; [| done].
  unfold bind at 1. by destruct (chat_completion _ _ _ _ w1).
Qed.

(** What the loop of [batch_process] builds.  It works through a prefix of
    [n] of the starts it is given, appends one headed reply for each, in
    order, and, when it stops early, the rate-limit notice for the start
    that comes next; the POSTs it issues are batch requests of that prefix,
    in order. *)
Lemma batch_loop_spec items operation batch_size starts :
  ∀ results w,
    ∃ (n : nat) (resps : list string) (sent : list request),
      (n ≤ length starts)%nat
      ∧ length resps = n
      ∧ (batch_loop items operation batch_size starts results w).1
          = results
              ++ zip_with (λ i resp,
                    batch_header (i / batch_size + 1)
                      ((Z.of_nat (length items) + batch_size - 1) / batch_size) resp)
                   (take n starts) resps
              ++ match starts !! n with
                 | Some i => [rate_limit_hit (i / batch_size + 1) i]
                 | None => []
                 end
      ∧ posts (batch_loop items operation batch_size starts results w).2 = posts w ++ sent
      ∧ sublist sent
          ((λ i, batch_request operation (slice items i (i + batch_size))) <$> take n starts).
Proof.
  induction starts as [|i rest IH]; intros results w.
  - exists 0%nat, [], []. simpl. rewrite !app_nil_r. done.
  - rewrite batch_loop_cons.
    pose proof (check_rate_limit_posts "default" w) as Hposts.
    destruct (check_rate_limit "default" w) as [[] w1]; simpl in Hposts |- *.
    + destruct (chat_completion_posts (batch_prompt operation (slice items i (i + batch_size)))
                  BATCH_SYSTEM_PROMPT (3 # 10)%Q 1024 w1) as (sent1 & Hsent1 & Hsub1).
      destruct (chat_completion _ _ _ _ w1) as [resp w2]. simpl in Hsent1.
      destruct (IH (results ++ [batch_header (i / batch_size + 1)
                                  ((Z.of_nat (length items) + batch_size - 1) / batch_size)
                                  resp]) w2)
        as (n & resps & sent & Hn & Hlen & Hres & Hsent & Hsub).
      exists (S n), (resp :: resps), (sent1 ++ sent). simpl.
      split; [lia |]. split; [by rewrite Hlen |].
      split; [by rewrite Hres, <- app_assoc |].
      split; [by rewrite Hsent, Hsent1, Hposts, app_assoc |].
      by apply (sublist_app _ [_]).
    + exists 0%nat, [], []. simpl. rewrite app_nil_r.
      split; [lia |]. by rewrite Hposts.
Qed.

Lemma sum_list_length_concat {A} (l : list (list A)) :
  sum_list (length <$> l) = length (concat l).
Proof.
  induction l as [|x l IH]; [done |].
  rewrite fmap_cons. simpl. rewrite length_app. by f_equal.
Qed.

(** The number of batches is the least [n] with [len(items) <= n * batch_size]. *)
Lemma ceil_div_bounds (total size : Z) :
  0 < total → 0 < size →
  let n := (total + size - 1) / size in
  0 < n ∧ (n - 1) * size < total ≤ n * size.
Proof.
  intros Htotal Hsize n.
  pose proof (Z.div_mod (total + size - 1) size) as Hdm.
  pose proof (Z.mod_pos_bound (total + size - 1) size Hsize) as Hmod.
  fold n in Hdm. nia.
Qed.

Lemma zip_with_ext_all {A B C} (f g : A → B → C) (l : list A) (k : list B) :
  (∀ x y, f x y = g x y) → zip_with f l k = zip_with g l k.
Proof.
  intros Hfg. revert k. induction l as [|x l IH]; intros [|y k]; simpl; try done.
  by rewrite Hfg, IH.
Qed.


Lemma batch_sent_sublist operation batches granted :
  sublist (batch_sent operation batches granted) (batch_request operation <$> batches).
Proof.
  revert granted. induction batches as [|batch batches IH]; intros [|[] granted]; simpl;
    try done; try apply sublist_nil_l.
  - by apply sublist_skip.
  - by apply sublist_cons.
Qed.

(** When every check passes, every batch is sent and answered. *)
Lemma batch_sent_all_granted operation batches :
  batch_sent operation batches (replicate (length batches) true)
    = batch_request operation <$> batches.
Proof. induction batches as [|batch batches IH]; [done |]. simpl. by rewrite IH. Qed.

Lemma batch_replies_all_granted operation p batches :
  batch_replies operation p batches (replicate (length batches) true)
    = imap (λ j batch,
              completion_text (requests_post (p + j) (batch_request operation batch)))
        batches.
Proof.
  revert p. induction batches as [|batch batches IH]; intros p; [done |].
  simpl. rewrite Nat.add_0_r, IH. f_equal.
  apply imap_ext. intros j b _. simpl. do 2 f_equal. lia.
Qed.

(** The run of the loop of [batch_process] over the starts it is given.
    It takes the batches in order; for each batch whose check passes it
    calls [chat_completion] with the request of that batch and appends the
    headed reply, and at the first check that fails it appends the notice
    for that batch and stops.  While the window of "default" has two places
    left for every batch to come, every check passes. *)
Lemma batch_loop_trace items operation batch_size starts :
  ∀ results w,
    let batches := (λ i, slice items i (i + batch_size)) <$> starts in
    ∃ granted : list bool,
      (length granted ≤ length starts)%nat
      ∧ (Z.of_nat (length (default [] (rate_limiter w !! "default")))
           + 2 * Z.of_nat (length starts) ≤ RATE_LIMIT_MAX_REQUESTS →
         granted = replicate (length starts) true)
      ∧ (batch_loop items operation batch_size starts results w).1
          = results
              ++ zip_with (λ i reply,
                    batch_header (i / batch_size + 1)
                      ((Z.of_nat (length items) + batch_size - 1) / batch_size) reply)
                   (take (length granted) starts)
                   (batch_replies operation (length (posts w)) batches granted)
              ++ match starts !! length granted with
                 | Some i => [rate_limit_hit (i / batch_size + 1) i]
                 | None => []
                 end
      ∧ posts (batch_loop items operation batch_size starts results w).2
          = posts w ++ batch_sent operation batches granted.
Proof.
  induction starts as [|i rest IH]; intros results w batches.
  { exists []. simpl. rewrite !app_nil_r. done. }
  rewrite batch_loop_cons, check_rate_limit_unfold.
  pose proof (length_filter (λ t, time_time (clock_reads w) - t < RATE_LIMIT_WINDOW)
                (default [] (rate_limiter w !! "default"))) as Hprune1.
  fold (prune (time_time (clock_reads w)) (default [] (rate_limiter w !! "default")))
    in Hprune1.
  unfold check_rate_limit_at. case_decide as Hfull1.
  { exists []. simpl. rewrite app_nil_r. split; [lia |]. split; [lia | done]. }
  rewrite chat_completion_unfold. cbn [rate_limiter clock_reads posts context_store].
  set (window1 := prune (time_time (clock_reads w)) (default [] (rate_limiter w !! "default"))
                    ++ [time_time (clock_reads w)]) in *.
  assert (Hlen1 : (length window1 ≤ S (length (default [] (rate_limiter w !! "default"))))%nat).
  { unfold window1. rewrite length_app. simpl. lia. }
  pose proof (length_filter (λ t, time_time (S (clock_reads w)) - t < RATE_LIMIT_WINDOW)
                window1) as Hprune2.
  fold (prune (time_time (S (clock_reads w))) window1) in Hprune2.
  unfold check_rate_limit_at. rewrite lookup_insert_eq. cbn [default from_option id].
  case_decide as Hfull2.
  - match goal with
    | |- context [batch_loop _ _ _ rest ?r ?w2] =>
        destruct (IH r w2) as (granted & Hlen & Hall & Hres & Hsent)
    end.
    exists (false :: granted). cbn [posts] in Hres, Hsent.
    split; [simpl; lia |]. split; [simpl; lia |].
    split; [by rewrite Hres, <- app_assoc | done].
  - match goal with
    | |- context [batch_loop _ _ _ rest ?r ?w2] =>
        destruct (IH r w2) as (granted & Hlen & Hall & Hres & Hsent)
    end.
    exists (true :: granted). cbn [posts rate_limiter] in Hres, Hsent, Hall.
    rewrite lookup_insert_eq in Hall. cbn [default from_option id] in Hall.
    rewrite length_app in Hres. simpl in Hres. rewrite Nat.add_1_r in Hres.
    split; [simpl; lia |]. split.
    { intros Hbudget. simpl. f_equal. apply Hall.
      rewrite length_app. simpl in *. lia. }
    split; [by rewrite Hres, <- app_assoc |].
    by rewrite Hsent, <- app_assoc.
Qed.

(** The run of [batch_process] over the batches of its items. *)
Lemma batch_process_trace items operation batch_size combine_results w :
  items ≠ [] →
  0 < batch_size →
  let total_items := Z.of_nat (length items) in
  let cs := chunks items batch_size in
  ∃ granted : list bool,
    (length granted ≤ length cs)%nat
    ∧ (Z.of_nat (length (default [] (rate_limiter w !! "default")))
         + 2 * Z.of_nat (length cs) ≤ RATE_LIMIT_MAX_REQUESTS →
       granted = replicate (length cs) true)
    ∧ posts (batch_process items operation batch_size combine_results w).2
        = posts w ++ batch_sent operation cs granted
    ∧ let results :=
        zip_with (λ (j : nat) reply,
                    batch_header (Z.of_nat j + 1) (Z.of_nat (length cs)) reply)
          (seq 0 (length granted))
          (batch_replies operation (length (posts w)) cs granted)
        ++ (if decide (length granted < length cs)%nat
            then [rate_limit_hit (Z.of_nat (length granted) + 1)
                    (Z.of_nat (length granted) * batch_size)]
            else []) in
      (batch_process items operation batch_size combine_results w).1 =
        if combine_results then BatchText (String.concat BATCH_SEPARATOR results)
        else BatchJson total_items
               (Z.min (Z.of_nat (length results) * batch_size) total_items) results.
Proof.
  intros Hne Hpos total_items cs.
  assert (Htotal : 0 < total_items).
  { unfold total_items. destruct items; [done | simpl; lia]. }
  destruct (ceil_div_bounds total_items batch_size Htotal Hpos) as (Hq & _ & _).
  set (total_batches := (total_items + batch_size - 1) / batch_size) in *.
  unfold cs, chunks, batch_process. destruct items as [|item items']; [done |].
  set (items := item :: items') in *. fold total_items.
  unfold py_range. rewrite decide_False by lia. rewrite decide_True by done.
  rewrite range_up_spec by lia. rewrite Z.sub_0_r. fold total_batches.
  set (starts := (λ j : nat, 0 + Z.of_nat j * batch_size) <$> seq 0 (Z.to_nat total_batches)).
  assert (Hstarts : length starts = Z.to_nat total_batches).
  { unfold starts. by rewrite length_fmap, length_seq. }
  rewrite length_fmap, Hstarts.
  unfold bind.
  destruct (batch_loop_trace items operation batch_size starts [] w)
    as (granted & Hlen & Hall & Hres & Hsent).
  destruct (batch_loop _ _ _ _ _ w) as [results w1].
  cbn [fst snd] in Hres, Hsent. rewrite app_nil_l in Hres.
  exists granted. split; [lia |]. split; [by rewrite <- Hstarts |].
  split; [by destruct combine_results |].
  fold total_items total_batches in Hres.
  replace (Z.of_nat (Z.to_nat total_batches)) with total_batches by lia.
  assert (Hout : ∀ replies,
             zip_with (λ i reply, batch_header (i / batch_size + 1) total_batches reply)
               (take (length granted) starts) replies
             = zip_with (λ (j : nat) reply,
                           batch_header (Z.of_nat j + 1) total_batches reply)
                 (seq 0 (length granted)) replies).
  { intros replies. unfold starts. rewrite <- fmap_take, take_seq, zip_with_fmap_l.
    rewrite Nat.min_l by lia.
    apply zip_with_ext_all. intros j reply.
    by rewrite Z.add_0_l, Z.div_mul by lia. }
  rewrite Hout in Hres.
  assert (Hnotice : match starts !! length granted with
                    | Some i => [rate_limit_hit (i / batch_size + 1) i]
                    | None => []
                    end
                    = if decide (length granted < Z.to_nat total_batches)%nat
                      then [rate_limit_hit (Z.of_nat (length granted) + 1)
                              (Z.of_nat (length granted) * batch_size)]
                      else []).
  { case_decide as Hcut.
    - assert (Hnext : starts !! length granted
                      = Some (Z.of_nat (length granted) * batch_size)).
      { unfold starts. rewrite list_lookup_fmap.
        rewrite (proj2 (lookup_seq 0 (Z.to_nat total_batches) (length granted)
                          (length granted))) by (split; lia).
        simpl. f_equal; lia. }
      by rewrite Hnext, Z.div_mul by lia.
    - by rewrite lookup_ge_None_2 by lia. }
  rewrite Hnotice in Hres. simpl. rewrite <- Hres.
  by destruct combine_results.
Qed.

(** C7. For a non-empty list of [N] items and a positive batch size [k],
    [batch_process] cuts the items into [ceil(N / k)] consecutive batches
    that, put end to end, give the items back in their order; every batch
    holds between 1 and [k] items and every batch but the last exactly [k],
    so the sizes add up to [N].  It takes these batches in their order,
    from the first on: the requests it sends to the backend are the
    requests for the batches whose two admission checks passed, one after
    the other, none twice and none out of turn, and it stops at the first
    batch whose own check fails.  When the window of "default" has two
    places left for every batch, it sends the request of every batch, in
    order, and returns the backend's answer to the [j]-th of them under the
    heading of batch [j]. *)
Theorem batch_chunks (items : list string) (operation : string) (batch_size : Z)
    (combine_results : bool) (w : world) :
  items ≠ [] →
  0 < batch_size →
  let total_items := Z.of_nat (length items) in
  let cs := chunks items batch_size in
  let run := batch_process items operation batch_size combine_results w in
  Z.of_nat (length cs) = (total_items + batch_size - 1) / batch_size
  ∧ (Z.of_nat (length cs) - 1) * batch_size < total_items ≤ Z.of_nat (length cs) * batch_size
  ∧ concat cs = items
  ∧ Z.of_nat (sum_list (length <$> cs)) = total_items
  ∧ (∀ (j : nat) chunk,
        cs !! j = Some chunk →
        1 ≤ Z.of_nat (length chunk) ≤ batch_size
        ∧ ((S j < length cs)%nat → Z.of_nat (length chunk) = batch_size))
  ∧ (∃ granted : list bool,
        (length granted ≤ length cs)%nat
        ∧ posts run.2 = posts w ++ batch_sent operation cs granted
        ∧ sublist (batch_sent operation cs granted) (batch_request operation <$> cs)
        ∧ let results :=
            zip_with (λ (j : nat) reply,
                        "**Batch " +:+ pretty (Z.of_nat j + 1) +:+ "/"
                          +:+ pretty (Z.of_nat (length cs)) +:+ ":**" +:+ LF +:+ reply)
              (seq 0 (length granted))
              (batch_replies operation (length (posts w)) cs granted)
            ++ (if decide (length granted < length cs)%nat
                then ["⚠️ Rate limit hit at batch " +:+ pretty (Z.of_nat (length granted) + 1)
                        +:+ ". Processed "
                        +:+ pretty (Z.of_nat (length granted) * batch_size) +:+ " items."]
                else []) in
          run.1 = if combine_results
                  then BatchText (String.concat (LF +:+ LF +:+ "---" +:+ LF +:+ LF) results)
                  else BatchJson total_items
                         (Z.min (Z.of_nat (length results) * batch_size) total_items)
                         results)
  ∧ (Z.of_nat (length (default [] (rate_limiter w !! "default")))
       + 2 * Z.of_nat (length cs) ≤ RATE_LIMIT_MAX_REQUESTS →
     posts run.2 = posts w ++ (batch_request operation <$> cs)
     ∧ let results :=
         imap (λ (j : nat) chunk,
                 "**Batch " +:+ pretty (Z.of_nat j + 1) +:+ "/"
                   +:+ pretty (Z.of_nat (length cs)) +:+ ":**" +:+ LF
                   +:+ completion_text
                         (requests_post (length (posts w) + j)
                            (batch_request operation chunk)))
           cs in
       run.1 = if combine_results
               then BatchText (String.concat (LF +:+ LF +:+ "---" +:+ LF +:+ LF) results)
               else BatchJson total_items total_items results).
Proof.
  intros Hne Hpos total_items cs run.
  assert (Htotal : 0 < total_items).
  { unfold total_items. destruct items; [done | simpl; lia]. }
  destruct (ceil_div_bounds total_items batch_size Htotal Hpos) as (Hn & Hlo & Hhi).
  set (q := (total_items + batch_size - 1) / batch_size) in *.
  assert (Hcs : cs = (λ j : nat, take (Z.to_nat batch_size)
                                  (drop (j * Z.to_nat batch_size) items))
                       <$> seq 0 (Z.to_nat q)).
  { unfold cs, q, total_items. by apply chunks_spec. }
  assert (Hlen : Z.of_nat (length cs) = q).
  { rewrite Hcs, length_fmap, length_seq. lia. }
  assert (Hconcat : concat cs = items).
  { rewrite Hcs, concat_chunks_take. apply take_ge. unfold total_items in *. nia. }
  destruct (batch_process_trace items operation batch_size combine_results w Hne Hpos)
    as (granted & Hgranted & Hall & Hsent & Hres).
  fold cs run total_items in Hgranted, Hall, Hsent, Hres.
  split; [done |]. split; [rewrite Hlen; lia |]. split; [done |].
  split; [by rewrite sum_list_length_concat, Hconcat |].
  split; [| split].
  - intros j chunk Hj. rewrite Hcs in Hj.
    apply list_lookup_fmap_Some in Hj as (j' & -> & Hseq).
    apply lookup_seq in Hseq as [-> Hseq]. simpl.
    rewrite length_take, length_drop. unfold total_items in *.
    split; [nia |]. intros Hlast. nia.
  - exists granted. split; [done |]. split; [done |].
    split; [apply batch_sent_sublist | exact Hres].
  - intros Hbudget. specialize (Hall Hbudget). subst granted.
    rewrite batch_sent_all_granted in Hsent. split; [done |].
    cbv zeta in Hres. rewrite batch_replies_all_granted, length_replicate in Hres.
    rewrite decide_False in Hres by lia. rewrite app_nil_r in Hres.
    assert (Hzip : ∀ (f : nat → string → string) (g : nat → list string → string)
                     (l : list (list string)),
               zip_with f (seq 0 (length l)) (imap g l)
               = imap (λ j chunk, f j (g j chunk)) l).
    { intros f g l. revert f g. induction l as [|x l IH]; intros f g; [done |].
      simpl. f_equal. rewrite <- fmap_S_seq, zip_with_fmap_l.
      by rewrite (IH (λ j, f (S j)) (g ∘ S)). }
    rewrite Hzip in Hres. rewrite Hres.
    destruct combine_results; [done |].
    rewrite length_imap. f_equal. unfold total_items in *. nia.
Qed.

(** The structured result of [batch_process].  The loop completes some
    number [n] of batches.  When it is cut short, the notice it appends
    reports [n * batch_size] items, those of the [n] batches completed,
    but the notice is itself counted as a batch by "processed_items", which
    comes out as [min((n + 1) * batch_size, total)]. *)
Lemma batch_process_report items operation batch_size w :
  items ≠ [] →
  0 < batch_size →
  let total_items := Z.of_nat (length items) in
  let total_batches := (total_items + batch_size - 1) / batch_size in
  ∃ (n : nat) (resps : list string),
    Z.of_nat n ≤ total_batches
    ∧ length resps = n
    ∧ let outputs :=
        zip_with (λ (j : nat) resp, batch_header (Z.of_nat j + 1) total_batches resp)
          (seq 0 n) resps in
      (batch_process items operation batch_size false w).1 =
        if decide (Z.of_nat n < total_batches)
        then BatchJson total_items
               (Z.min ((Z.of_nat n + 1) * batch_size) total_items)
               (outputs ++ [rate_limit_hit (Z.of_nat n + 1) (Z.of_nat n * batch_size)])
        else BatchJson total_items total_items outputs.
Proof.
  intros Hne Hpos total_items total_batches.
  assert (Htotal : 0 < total_items).
  { unfold total_items. destruct items; [done | simpl; lia]. }
  destruct (ceil_div_bounds total_items batch_size Htotal Hpos) as (Hq & Hlo & Hhi).
  fold total_batches in Hq, Hlo, Hhi.
  unfold batch_process. destruct items as [|item items']; [done |].
  set (items := item :: items') in *. fold total_items.
  unfold py_range. rewrite decide_False by lia. rewrite decide_True by done.
  rewrite range_up_spec by lia. rewrite Z.sub_0_r. fold total_batches.
  set (starts := (λ j : nat, 0 + Z.of_nat j * batch_size) <$> seq 0 (Z.to_nat total_batches)).
  unfold bind.
  destruct (batch_loop_spec items operation batch_size starts [] w)
    as (n & resps & sent & Hn & Hlen & Hres & _ & _).
  destruct (batch_loop _ _ _ _ _ w) as [results w1].
  cbn [fst] in Hres. rewrite app_nil_l in Hres. simpl.
  assert (Hstarts : length starts = Z.to_nat total_batches).
  { unfold starts. by rewrite length_fmap, length_seq. }
  exists n, resps. split; [lia |]. split; [done |].
  assert (Hout : zip_with (λ i resp, batch_header (i / batch_size + 1) total_batches resp)
                   (take n starts) resps
                 = zip_with (λ (j : nat) resp, batch_header (Z.of_nat j + 1) total_batches resp)
                     (seq 0 n) resps).
  { unfold starts. rewrite <- fmap_take, take_seq, zip_with_fmap_l.
    rewrite Nat.min_l by lia.
    apply zip_with_ext_all. intros j resp.
    by rewrite Z.add_0_l, Z.div_mul by lia. }
  fold total_items total_batches in Hres. rewrite Hout in Hres.
  assert (Hzip : length (zip_with (λ (j : nat) resp,
                           batch_header (Z.of_nat j + 1) total_batches resp)
                           (seq 0 n) resps) = n).
  { rewrite length_zip_with, length_seq. lia. }
  case_decide as Hcut.
  - assert (Hnext : starts !! n = Some (Z.of_nat n * batch_size)).
    { unfold starts. rewrite list_lookup_fmap.
      rewrite (proj2 (lookup_seq 0 (Z.to_nat total_batches) n n)) by (split; lia).
      simpl. f_equal; lia. }
    rewrite Hnext in Hres. rewrite Z.div_mul in Hres by lia.
    rewrite Hres, length_app, Hzip. simpl. do 2 f_equal. lia.
  - rewrite lookup_ge_None_2 in Hres by lia. rewrite app_nil_r in Hres.
    rewrite Hres, Hzip. f_equal. nia.
Qed.

(** ** [automate_menial_task] *)

(** The steps of [automate_menial_task]: its own admission check, the
    lookup of the task type, and the call of [chat_completion]. *)
Lemma automate_menial_task_unfold task_type task_data output_format w :
  automate_menial_task task_type task_data output_format w =
    let (ok, w1) := check_rate_limit "default" w in
    if ok then
      match task_prompts output_format task_type with
      | Some system_prompt =>
          chat_completion
            ("Task: " +:+ task_type +:+ LF +:+ LF +:+ "Data:" +:+ LF +:+ task_data)
            (system_prompt +:+ default EmptyString (format_hints output_format))
            (3 # 10)%Q 2048 w1
      | None => (unknown_task_type task_type, w1)
      end
    else (RATE_LIMIT_EXCEEDED, w1).
Proof.
  unfold automate_menial_task, bind at 1.
  destruct (check_rate_limit "default" w) as [[] w1]; simpl; [| done].
  by destruct (task_prompts output_format task_type).
Qed.

(** ** Invariants of the rate limiter over every tool *)

Section RateLimiterInvariant.

(** A property of the rate limiter and of the number of clock readings
    that survives one more reading and one admission check of "default". *)
Variable P : gmap string (list Z) → nat → Prop.
Hypothesis P_tick : ∀ rl n, P rl n → P rl (S n).
Hypothesis P_check :
  ∀ rl n, P rl n → P (check_rate_limit_at (time_time n) "default" rl).2 (S n).

Local Abbreviation Pw w := (P (rate_limiter w) (clock_reads w)).

Lemma check_rate_limit_keeps w : Pw w → Pw (check_rate_limit "default" w).2.
Proof.
  intros HP. rewrite check_rate_limit_unfold.
  pose proof (P_check _ _ HP) as Hstep.
  by destruct (check_rate_limit_at _ _ _).
Qed.

Lemma chat_completion_keeps prompt system_prompt temperature max_tokens w :
  Pw w → Pw (chat_completion prompt system_prompt temperature max_tokens w).2.
Proof.
  intros HP. rewrite chat_completion_unfold.
  pose proof (P_check _ _ HP) as Hstep.
  by destruct (check_rate_limit_at _ _ _) as [[] rl].
Qed.

Lemma offload_context_keeps context_id context_data operation w :
  Pw w → Pw (offload_context context_id context_data operation w).2.
Proof.
  intros HP.
  destruct (decide (operation = "store")) as [->|Hstore].
  { rewrite offload_store. case_decide; [done |]. simpl. by apply P_tick. }
  destruct (decide (operation = "retrieve")) as [->|Hretrieve].
  { by rewrite offload_retrieve. }
  destruct (decide (operation = "summarize")) as [->|Hsummarize].
  { rewrite offload_summarize.
    pose proof (chat_completion_keeps
                  ("Please summarize this context:" +:+ LF +:+ LF +:+ context_data)
                  SUMMARIZE_SYSTEM_PROMPT (3 # 10)%Q 500 w HP) as Hchat.
    destruct (chat_completion _ _ _ _ w) as [resp w1]. simpl in *. by apply P_tick. }
  destruct (decide (operation = "analyze")) as [->|Hanalyze].
  { rewrite offload_analyze.
    pose proof (chat_completion_keeps
                  ("Analyze this context and extract key information:" +:+ LF +:+ LF
                     +:+ context_data)
                  ANALYZE_SYSTEM_PROMPT (3 # 10)%Q 800 w HP) as Hchat.
    by destruct (chat_completion _ _ _ _ w) as [resp w1]. }
  unfold offload_context. by rewrite !decide_False.
Qed.

Lemma automate_menial_task_keeps task_type task_data output_format w :
  Pw w → Pw (automate_menial_task task_type task_data output_format w).2.
Proof.
  intros HP. rewrite automate_menial_task_unfold.
  pose proof (check_rate_limit_keeps w HP) as Hcheck.
  destruct (check_rate_limit "default" w) as [[] w1]; simpl in *; [| done].
  destruct (task_prompts output_format task_type); [| done].
  by apply chat_completion_keeps.
Qed.

Lemma batch_loop_keeps items operation batch_size starts :
  ∀ results w,
    Pw w → Pw (batch_loop items operation batch_size starts results w).2.
Proof.
  induction starts as [|i rest IH]; intros results w HP; [done |].
  rewrite batch_loop_cons.
  pose proof (check_rate_limit_keeps w HP) as Hcheck.
  destruct (check_rate_limit "default" w) as [[] w1]; simpl in *; [| done].
  pose proof (chat_completion_keeps (batch_prompt operation (slice items i (i + batch_size)))
                BATCH_SYSTEM_PROMPT (3 # 10)%Q 1024 w1 Hcheck) as Hchat.
  destruct (chat_completion _ _ _ _ w1) as [resp w2]. by apply IH.
Qed.

Lemma batch_process_keeps items operation batch_size combine_results w :
  Pw w → Pw (batch_process items operation batch_size combine_results w).2.
Proof.
  intros HP. unfold batch_process. destruct items as [|item items]; [done |].
  destruct (py_range _ _ _) as [starts|]; [| done].
  unfold bind.
  pose proof (batch_loop_keeps (item :: items) operation batch_size starts [] w HP) as Hloop.
  destruct (batch_loop _ _ _ _ _ w) as [results w1].
  by destruct combine_results.
Qed.

Lemma clear_contexts_keeps context_pattern w :
  Pw w → Pw (clear_contexts context_pattern w).2.
Proof.
  intros HP. unfold clear_contexts, bind, get_context_store, put_context_store, ret.
  by case_decide.
Qed.

Lemma run_tool_keeps c w : Pw w → Pw (run_tool c w).
Proof.
  destruct c; simpl.
  - apply chat_completion_keeps.
  - apply offload_context_keeps.
  - apply automate_menial_task_keeps.
  - apply batch_process_keeps.
  - apply clear_contexts_keeps.
  - done.
  - intros HP. by do 3 apply P_tick.
  - done.
  - done.
  - done.
Qed.

Lemma run_tools_keeps calls : ∀ w, Pw w → Pw (run_tools calls w).
Proof.
  induction calls as [|c calls IH]; intros w HP; [done |].
  simpl. apply IH. by apply run_tool_keeps.
Qed.

End RateLimiterInvariant.

Lemma stamp_kept_check t n0 rl n :
  stamp_kept t n0 rl n →
  stamp_kept t n0 (check_rate_limit_at (time_time n) "default" rl).2 (S n).
Proof.
  intros [Hn [Hin|(m & Hm & Hold)]]; (split; [lia |]).
  - destruct (decide (time_time n - t < RATE_LIMIT_WINDOW)) as [Hlive|Hexpired].
    + left. rewrite check_rate_limit_at_same. simpl.
      assert (t ∈ prune (time_time n) (default [] (rl !! "default")))
        by (by apply list_elem_of_filter).
      destruct (check_rate_limit_at _ _ _).1; [| done].
      apply elem_of_app. by left.
    + right. exists n. split; lia.
  - right. exists m. split; [lia | done].
Qed.

(** The first check of a batch run that has room records its reading. *)
Lemma batch_process_first_stamp item items operation batch_size combine_results w :
  0 < batch_size →
  Z.of_nat (length (prune (time_time (clock_reads w))
                      (default [] (rate_limiter w !! "default"))))
    < RATE_LIMIT_MAX_REQUESTS →
  let w' := (batch_process (item :: items) operation batch_size combine_results w).2 in
  stamp_kept (time_time (clock_reads w)) (clock_reads w) (rate_limiter w') (clock_reads w').
Proof.
  intros Hpos Hroom w'.
  pose proof (eq_refl w') as Hw'. unfold w' at 2 in Hw'. clearbody w'. revert Hw'.
  unfold batch_process, py_range.
  rewrite decide_False by lia. rewrite decide_True by done.
  replace (Z.to_nat (Z.of_nat (length (item :: items)) - 0))
    with (S (length items)) by (simpl; lia).
  simpl range_up. unfold bind at 1.
  rewrite batch_loop_cons, check_rate_limit_unfold.
  unfold check_rate_limit_at. rewrite decide_False by lia.
  set (now := time_time (clock_reads w)).
  set (w1 := World _ _ _ _).
  assert (H1 : stamp_kept now (clock_reads w) (rate_limiter w1) (clock_reads w1)).
  { unfold w1. simpl. split; [lia |]. left. rewrite lookup_insert_eq. simpl.
    apply elem_of_app. right. by apply list_elem_of_singleton. }
  pose proof (chat_completion_keeps (stamp_kept now (clock_reads w)) (stamp_kept_check now _)
                (batch_prompt operation (slice (item :: items) 0 (0 + batch_size)))
                BATCH_SYSTEM_PROMPT (3 # 10)%Q 1024 w1 H1) as H2.
  destruct (chat_completion _ _ _ _ w1) as [resp w2]. simpl in H2.
  match goal with
  | |- context [batch_loop ?its ?op ?k ?starts ?results w2] =>
      pose proof (batch_loop_keeps (stamp_kept now (clock_reads w)) (stamp_kept_check now _)
                    its op k starts results w2 H2) as H3;
      destruct (batch_loop its op k starts results w2) as [results' w3]
  end.
  destruct combine_results; simpl; by intros ->.
Qed.

(** C10. The tools that check the rate limit, [chat_completion],
    [automate_menial_task] and [batch_process], all do so for the client
    "default", so they draw on one budget.  None of them changes the
    window of any other client.  Once the window of "default" holds
    [RATE_LIMIT_MAX_REQUESTS] live timestamps, whichever tool put them
    there, each of the three is refused.  And while it has room, a call of
    any of the three is granted and leaves its timestamp there, where it
    counts against the next call of any of them: [chat_completion] appends
    the reading of its check, [automate_menial_task] appends the reading
    of its own check before it goes on, and so does [batch_process], whose
    timestamp stays until a later check finds it a full window old. *)
Theorem shared_default_budget (w : world) :
  let now := time_time (clock_reads w) in
  let remaining := prune now (default [] (rate_limiter w !! "default")) in
  (∀ c, c ≠ "default" →
     (∀ prompt system_prompt temperature max_tokens,
         rate_limiter (chat_completion prompt system_prompt temperature max_tokens w).2 !! c
           = rate_limiter w !! c)
     ∧ (∀ task_type task_data output_format,
           rate_limiter (automate_menial_task task_type task_data output_format w).2 !! c
             = rate_limiter w !! c)
     ∧ (∀ items operation batch_size combine_results,
           rate_limiter (batch_process items operation batch_size combine_results w).2 !! c
             = rate_limiter w !! c))
  ∧ (RATE_LIMIT_MAX_REQUESTS ≤ Z.of_nat (length remaining) →
     (∀ prompt system_prompt temperature max_tokens,
         (chat_completion prompt system_prompt temperature max_tokens w).1
           = "⚠️ Rate limit exceeded. Please wait a moment before trying again.")
     ∧ (∀ task_type task_data output_format,
           (automate_menial_task task_type task_data output_format w).1
             = "⚠️ Rate limit exceeded. Please wait a moment before trying again.")
     ∧ (∀ item items operation batch_size,
           0 < batch_size →
           (batch_process (item :: items) operation batch_size true w).1
             = BatchText "⚠️ Rate limit hit at batch 1. Processed 0 items."))
  ∧ (Z.of_nat (length remaining) < RATE_LIMIT_MAX_REQUESTS →
     (∀ prompt system_prompt temperature max_tokens,
         rate_limiter (chat_completion prompt system_prompt temperature max_tokens w).2
           = <["default" := remaining ++ [now]]> (rate_limiter w))
     ∧ (∀ task_type task_data output_format,
           let recorded := <["default" := remaining ++ [now]]> (rate_limiter w) in
           rate_limiter (automate_menial_task task_type task_data output_format w).2
             = match task_prompts output_format task_type with
               | None => recorded
               | Some _ =>
                   (check_rate_limit_at (time_time (S (clock_reads w))) "default" recorded).2
               end)
     ∧ (∀ item items operation batch_size combine_results,
           0 < batch_size →
           let w' := (batch_process (item :: items) operation batch_size combine_results w).2 in
           (clock_reads w < clock_reads w')%nat
           ∧ (now ∈ default [] (rate_limiter w' !! "default")
              ∨ ∃ m : nat, (clock_reads w < m < clock_reads w')%nat
                           ∧ RATE_LIMIT_WINDOW ≤ time_time m - now))).
Proof.
  intros now remaining. split; [| split].
  - intros c Hne. split; [| split]; intros.
    + by apply chat_completion_other.
    + by apply automate_menial_task_other.
    + by apply batch_process_other.
  - intros Hfull. pose proof (check_rate_limit_full w Hfull) as Hcheck.
    split; [| split].
    + intros. unfold chat_completion, bind at 1.
      by destruct (check_rate_limit "default" w) as [[] w1].
    + intros. unfold automate_menial_task, bind at 1.
      by destruct (check_rate_limit "default" w) as [[] w1].
    + intros item items operation batch_size Hpos.
      unfold batch_process, py_range.
      rewrite decide_False by lia. rewrite decide_True by done.
      replace (Z.to_nat (Z.of_nat (length (item :: items)) - 0))
        with (S (length items)) by (simpl; lia).
      simpl range_up.
      unfold bind at 1. simpl batch_loop. unfold bind at 1.
      destruct (check_rate_limit "default" w) as [[] w1]; [done |].
      simpl. by rewrite Z.div_0_l by lia.
  - intros Hroom. split; [| split].
    + intros. rewrite chat_completion_unfold. unfold check_rate_limit_at.
      fold now remaining. by rewrite decide_False by lia.
    + intros task_type task_data output_format recorded.
      rewrite automate_menial_task_unfold, check_rate_limit_unfold.
      unfold check_rate_limit_at at 1. fold now remaining.
      rewrite decide_False by lia. fold recorded.
      destruct (task_prompts output_format task_type) as [system_prompt|]; [| done].
      rewrite chat_completion_unfold. simpl.
      by destruct (check_rate_limit_at _ _ recorded) as [[] rl2].
    + intros item items operation batch_size combine_results Hpos.
      exact (batch_process_first_stamp item items operation batch_size combine_results
               w Hpos Hroom).
Qed.


(** What every state reached from the start satisfies: no client but
    "default" has a window, and that window never holds more timestamps
    than the limit. *)
Lemma reachable_rate_limiter (calls : list tool_call) :
  let rl := rate_limiter (run_tools calls initial_world) in
  (∀ c, c ≠ "default" → rl !! c = None)
  ∧ (∀ window, rl !! "default" = Some window →
               Z.of_nat (length window) ≤ Z.max 0 RATE_LIMIT_MAX_REQUESTS).
Proof.
  apply (run_tools_keeps
           (λ rl _, (∀ c, c ≠ "default" → rl !! c = None)
                    ∧ (∀ window, rl !! "default" = Some window →
                         Z.of_nat (length window) ≤ Z.max 0 RATE_LIMIT_MAX_REQUESTS))).
  - done.
  - intros rl n [Hother Hbound]. split.
    + intros c Hne. rewrite check_rate_limit_at_other by done. by apply Hother.
    + intros window. rewrite check_rate_limit_at_same. intros [= <-].
      pose proof (check_rate_limit_at_true (time_time n) "default" rl) as Htrue.
      assert (Hpruned : Z.of_nat (length (prune (time_time n) (default [] (rl !! "default"))))
                        ≤ Z.max 0 RATE_LIMIT_MAX_REQUESTS).
      { pose proof (length_filter (λ t, time_time n - t < RATE_LIMIT_WINDOW)
                      (default [] (rl !! "default"))) as Hlen.
        unfold prune. destruct (rl !! "default") as [old|] eqn:Hold; simpl in *.
        - specialize (Hbound old eq_refl). lia.
        - lia. }
      destruct (check_rate_limit_at _ _ _).1; [| done].
      rewrite length_app. simpl. specialize (Htrue eq_refl). lia.
  - simpl. split; [done |]. intros window. by rewrite lookup_empty.
Qed.

(** X1. In every state that a sequence of tool calls reaches from the
    start of the process, [rate_limiter] has no key but "default", and the
    window of "default" holds at most [RATE_LIMIT_MAX_REQUESTS] timestamps
    (none when that constant is negative). *)
Theorem rate_limiter_reachable (calls : list tool_call) :
  let rl := rate_limiter (run_tools calls initial_world) in
  dom rl ⊆ {["default"]}
  ∧ map_Forall (λ _ window, Z.of_nat (length window) ≤ Z.max 0 RATE_LIMIT_MAX_REQUESTS) rl.
Proof.
  destruct (reachable_rate_limiter calls) as [Hother Hbound]. split.
  - intros c Hc. apply elem_of_dom in Hc as [window Hc].
    destruct (decide (c = "default")) as [->|Hne]; [set_solver |].
    rewrite Hother in Hc by done. done.
  - intros c window Hc.
    destruct (decide (c = "default")) as [->|Hne]; [by apply Hbound |].
    rewrite Hother in Hc by done. done.
Qed.

Lemma recent_le_total now rl : (recent_requests now rl ≤ total_requests rl)%nat.
Proof.
  unfold recent_requests, total_requests.
  induction ((map_to_list rl).*2) as [|requests l IH]; [done |].
  rewrite !fmap_cons. simpl.
  pose proof (length_filter (λ t, now - RATE_LIMIT_WINDOW < t) requests). lia.
Qed.

Lemma total_requests_default (rl : gmap string (list Z)) :
  (∀ c, c ≠ "default" → rl !! c = None) →
  total_requests rl = length (default [] (rl !! "default")).
Proof.
  intros Hother. unfold total_requests.
  destruct (rl !! "default") as [window|] eqn:Hdefault.
  - assert (rl = {["default" := window]}) as ->.
    { apply map_eq. intros c. destruct (decide (c = "default")) as [->|Hne].
      - by rewrite lookup_singleton_eq.
      - rewrite lookup_singleton_ne by done. by apply Hother. }
    rewrite map_to_list_singleton. simpl. lia.
  - assert (rl = ∅) as ->.
    { apply map_eq. intros c. rewrite lookup_empty.
      destruct (decide (c = "default")) as [->|Hne]; [done | by apply Hother]. }
    by rewrite map_to_list_empty.
Qed.

(** X2. The counters that [get_sidekick_stats] reports: "Recent Requests"
    never exceeds "Total Requests", and in every state reached from the
    start "Total Requests" is at most [RATE_LIMIT_MAX_REQUESTS], since the
    timestamps it counts are pruned at every check. *)
Theorem total_requests_bounded (calls : list tool_call) (now : Z) :
  let rl := rate_limiter (run_tools calls initial_world) in
  (recent_requests now rl ≤ total_requests rl)%nat
  ∧ Z.of_nat (total_requests rl) ≤ Z.max 0 RATE_LIMIT_MAX_REQUESTS.
Proof.
  split; [apply recent_le_total |].
  destruct (reachable_rate_limiter calls) as [Hother Hbound].
  rewrite total_requests_default by done.
  destruct (rate_limiter (run_tools calls initial_world) !! "default") as [window|] eqn:Hw;
    simpl; [by apply Hbound | lia].
Qed.

(** ** More on the admission check *)

Lemma prune_prune now1 now2 window :
  now1 ≤ now2 → prune now2 (prune now1 window) = prune now2 window.
Proof.
  intros Hle. unfold prune. apply list_filter_filter_l. intros t Ht. lia.
Qed.

(** X3. A refused check leaves no trace: provided the clock has not gone
    back, any later check, for any client, decides as if the refused call
    had never been made, and leaves that client the same window. *)
Theorem refused_check_forgotten (now1 now2 : Z) (c c' : string)
    (rl : gmap string (list Z)) :
  (check_rate_limit_at now1 c rl).1 = false →
  now1 ≤ now2 →
  let rl1 := (check_rate_limit_at now1 c rl).2 in
  (check_rate_limit_at now2 c' rl1).1 = (check_rate_limit_at now2 c' rl).1
  ∧ (check_rate_limit_at now2 c' rl1).2 !! c' = (check_rate_limit_at now2 c' rl).2 !! c'.
Proof.
  intros Hrefused Hle rl1.
  assert (Hwin : prune now2 (default [] (rl1 !! c')) = prune now2 (default [] (rl !! c'))).
  { unfold rl1. destruct (decide (c = c')) as [->|Hne].
    - rewrite check_rate_limit_at_same, Hrefused. simpl. by apply prune_prune.
    - by rewrite check_rate_limit_at_other. }
  rewrite !check_rate_limit_at_same.
  unfold check_rate_limit_at at 1 2 3 4. rewrite Hwin.
  by case_decide.
Qed.

(** X4. After a full window of silence a client is admitted again: when
    every timestamp kept for the client is at least [RATE_LIMIT_WINDOW]
    old and at least one request is allowed, the check returns [True] and
    the client's window becomes just [[now]]. *)
Theorem window_recovers (now : Z) (c : string) (rl : gmap string (list Z)) :
  0 < RATE_LIMIT_MAX_REQUESTS →
  Forall (λ t, t ≤ now - RATE_LIMIT_WINDOW) (default [] (rl !! c)) →
  check_rate_limit_at now c rl = (true, <[c := [now]]> rl).
Proof.
  intros Hmax Hold.
  assert (Hprune : prune now (default [] (rl !! c)) = []).
  { unfold prune. induction Hold as [|t l Ht _ IH]; [done |].
    rewrite filter_cons_False by lia. exact IH. }
  unfold check_rate_limit_at. rewrite Hprune. simpl.
  by rewrite decide_False by lia.
Qed.

Lemma admitted_agree c calls :
  ∀ rl rl' : gmap string (list Z),
    rl !! c = rl' !! c →
    admitted c calls rl = admitted c (filter (λ call, call.2 = c) calls) rl'.
Proof.
  induction calls as [|[now c0] rest IH]; intros rl rl' Hagree; [done |].
  simpl. destruct (decide (c0 = c)) as [->|Hne].
  - rewrite filter_cons_True by done. simpl.
    assert (Hstep : (check_rate_limit_at now c rl).1 = (check_rate_limit_at now c rl').1
                    ∧ (check_rate_limit_at now c rl).2 !! c
                      = (check_rate_limit_at now c rl').2 !! c).
    { rewrite !check_rate_limit_at_same.
      unfold check_rate_limit_at at 1 2 3 4. rewrite Hagree. by case_decide. }
    destruct (check_rate_limit_at now c rl) as [ok rl1],
             (check_rate_limit_at now c rl') as [ok' rl1'].
    simpl in Hstep. destruct Hstep as [-> Hnext].
    f_equal. by apply IH.
  - rewrite filter_cons_False by done.
    pose proof (check_rate_limit_at_other now c0 c rl Hne) as Hother.
    destruct (check_rate_limit_at now c0 rl) as [ok rl1]. simpl in Hother.
    rewrite bool_decide_eq_false_2 by done. rewrite andb_false_r. simpl.
    apply IH. by rewrite Hother.
Qed.

(** X5. Clients are isolated: the calls of a client that are admitted are
    the same whether or not the calls of the other clients are made. *)
Theorem admitted_isolation (c : string) (calls : list (Z * string)) :
  admitted c calls ∅ = admitted c (filter (λ call, call.2 = c) calls) ∅.
Proof. by apply admitted_agree. Qed.

(** ** More on the context store *)

Lemma estimate_tokens_le (text : string) (bound : Z) :
  estimate_tokens text ≤ bound ↔ Z.of_nat (len text) < 4 * (bound + 1).
Proof.
  unfold estimate_tokens.
  pose proof (Z.div_mod (Z.of_nat (len text)) 4) as Hdm.
  pose proof (Z.mod_pos_bound (Z.of_nat (len text)) 4) as Hmod.
  lia.
Qed.

(** X6. [store] accepts a text exactly when it has at most
    [4 * MAX_CONTEXT_SIZE + 3] characters: the token estimate rounds down,
    so up to three characters beyond four per token still fit. *)
Theorem store_accepts_iff (context_id context_data : string) (w : world) :
  (offload_context context_id context_data "store" w).1
    = context_stored context_id (estimate_tokens context_data)
  ↔ Z.of_nat (len context_data) ≤ 4 * MAX_CONTEXT_SIZE + 3.
Proof.
  rewrite offload_store.
  pose proof (estimate_tokens_le context_data MAX_CONTEXT_SIZE) as Hle.
  case_decide as Hbig; simpl.
  - split; [intros Heq; discriminate Heq | lia].
  - split; [lia | done].
Qed.

(** X7. The last write wins: after two [store] calls for the same id, the
    second of which is accepted, the store is the one before the two calls
    with the id bound to the second text, whether or not the first call was
    accepted. *)
Theorem store_last_write_wins (context_id first second : string) (w : world) :
  estimate_tokens second ≤ MAX_CONTEXT_SIZE →
  let w1 := (offload_context context_id first "store" w).2 in
  let w2 := (offload_context context_id second "store" w1).2 in
  context_store w2
    = <[context_id := ContextEntry second (datetime_now (clock_reads w1))
                        (estimate_tokens second)]> (context_store w).
Proof.
  intros Hfit w1 w2. unfold w2.
  rewrite (offload_store context_id second w1), decide_False by lia. simpl.
  unfold w1. rewrite (offload_store context_id first w).
  case_decide; simpl; [done |]. by rewrite insert_insert_eq.
Qed.

(** X8. A refused summary is stored all the same: when the window of
    "default" is full, [summarize] sends nothing to the backend and still
    binds the "_summary" id to an entry whose data is the rate-limit
    text. *)
Theorem summarize_persists_refusal (context_id context_data : string) (w : world) :
  RATE_LIMIT_MAX_REQUESTS
    ≤ Z.of_nat (length (prune (time_time (clock_reads w))
                          (default [] (rate_limiter w !! "default")))) →
  let (text, w') := offload_context context_id context_data "summarize" w in
  text = summary_created RATE_LIMIT_EXCEEDED
  ∧ posts w' = posts w
  ∧ context_store w'
      = <[context_id +:+ "_summary" :=
            ContextEntry RATE_LIMIT_EXCEEDED (datetime_now (S (clock_reads w))) 16]>
          (context_store w).
Proof.
  intros Hfull. rewrite offload_summarize, chat_completion_unfold.
  rewrite check_rate_limit_at_full by done. done.
Qed.

(** X9. A summary can be read back: right after [summarize] for an id,
    [retrieve] of the id followed by "_summary" renders an entry whose data
    are the reply that [summarize] returned, replacing whatever was stored
    under that id before. *)
Theorem summarize_then_retrieve (context_id context_data ignored : string) (w : world) :
  let (text, w1) := offload_context context_id context_data "summarize" w in
  ∃ reply ctx,
    text = summary_created reply
    ∧ data ctx = reply
    ∧ tokens ctx = estimate_tokens reply
    ∧ offload_context (context_id +:+ "_summary") ignored "retrieve" w1
        = (context_retrieved ctx, w1).
Proof.
  pose proof (summarize_persists context_id context_data w) as Hsum.
  destruct (offload_context context_id context_data "summarize" w) as [text w1].
  destruct Hsum as (reply & ts & -> & Hcs).
  exists reply, (ContextEntry reply ts (estimate_tokens reply)).
  rewrite offload_retrieve, Hcs, lookup_insert_eq. done.
Qed.

(** ** More on clearing *)

(** The state [clear_contexts] leaves, and its answer. *)
Lemma clear_contexts_unfold context_pattern w :
  clear_contexts context_pattern w =
    if decide (context_pattern = "*")
    then (cleared_all (size (context_store w)), set_context_store ∅ w)
    else (cleared_matching (length (matched_keys context_pattern (context_store w)))
            context_pattern,
          set_context_store
            (foldl (λ m key, delete key m) (context_store w)
               (matched_keys context_pattern (context_store w))) w).
Proof.
  unfold clear_contexts, bind, get_context_store, put_context_store, ret.
  by case_decide.
Qed.

Lemma clear_contexts_lookup context_pattern w k :
  context_store (clear_contexts context_pattern w).2 !! k =
    if decide (context_pattern = "*") then None
    else if str_in context_pattern k then None
    else context_store w !! k.
Proof.
  rewrite clear_contexts_unfold. case_decide as Hstar; simpl; [apply lookup_empty |].
  rewrite foldl_delete_lookup.
  pose proof (elem_of_matched_keys context_pattern (context_store w) k) as Hkeys.
  destruct (str_in context_pattern k) eqn:Hin.
  - case_decide as Hmem; [done |].
    destruct (context_store w !! k) as [e|] eqn:He; [| done].
    exfalso. apply Hmem, Hkeys. eauto.
  - case_decide as Hmem; [| done].
    apply Hkeys in Hmem as [Hmem _]. done.
Qed.

(** X10. What has been cleared is gone: after [clear_contexts], a
    [retrieve] of any id when the pattern is "*", and of any id that
    contains the pattern otherwise, answers "not found" and changes
    nothing. *)
Theorem clear_then_retrieve (context_pattern context_id ignored : string) (w : world) :
  context_pattern = "*" ∨ is_substring context_pattern context_id →
  let w1 := (clear_contexts context_pattern w).2 in
  offload_context context_id ignored "retrieve" w1 = (context_not_found context_id, w1).
Proof.
  intros Hmatch w1. rewrite offload_retrieve. unfold w1.
  rewrite clear_contexts_lookup.
  case_decide as Hstar; [done |].
  destruct Hmatch as [Hstar'|Hsub]; [done |].
  apply str_in_spec in Hsub. by rewrite Hsub.
Qed.

Lemma matched_keys_nil context_pattern (cs : gmap string context_entry) :
  (∀ k, str_in context_pattern k = true → cs !! k = None) →
  matched_keys context_pattern cs = [].
Proof.
  intros Hnone. apply elem_of_nil_inv. intros k Hk.
  apply elem_of_matched_keys in Hk as [Hin [e He]].
  rewrite (Hnone k Hin) in He. done.
Qed.

(** X11. Clearing is idempotent: a second [clear_contexts] with the same
    pattern removes nothing, reports a count of 0 and leaves the state as
    the first call left it. *)
Theorem clear_contexts_twice (context_pattern : string) (w : world) :
  let w1 := (clear_contexts context_pattern w).2 in
  clear_contexts context_pattern w1 =
    (if decide (context_pattern = "*") then cleared_all 0
     else cleared_matching 0 context_pattern, w1).
Proof.
  intros w1.
  assert (Hgone : ∀ k, str_in context_pattern k = true → context_store w1 !! k = None).
  { intros k Hin. unfold w1. rewrite clear_contexts_lookup, Hin. by case_decide. }
  rewrite (clear_contexts_unfold context_pattern w1).
  case_decide as Hstar.
  - unfold w1. rewrite clear_contexts_unfold, decide_True by done. simpl.
    by rewrite map_size_empty.
  - rewrite matched_keys_nil by done. simpl. by destruct w1.
Qed.

Lemma str_in_empty k : str_in EmptyString k = true.
Proof. by destruct k. Qed.

(** X12. The empty pattern clears everything: it is a substring of every
    id, so [clear_contexts] with it empties the store, as "*" does, and
    reports the number of entries there were. *)
Theorem clear_contexts_empty_pattern (w : world) :
  clear_contexts EmptyString w
    = (cleared_matching (size (context_store w)) EmptyString, set_context_store ∅ w).
Proof.
  rewrite clear_contexts_unfold, decide_False by done.
  set (cs := context_store w). set (keys := matched_keys EmptyString cs).
  assert (Hempty : foldl (λ m key, delete key m) cs keys = ∅).
  { apply map_eq. intros k. rewrite foldl_delete_lookup, lookup_empty.
    case_decide as Hmem; [done |].
    destruct (cs !! k) as [e|] eqn:He; [| done].
    exfalso. apply Hmem, elem_of_matched_keys. split; [apply str_in_empty | eauto]. }
  assert (Hsize : (size (foldl (λ m key, delete key m) cs keys) + length keys
                   = size cs)%nat).
  { apply foldl_delete_size.
    - unfold keys, matched_keys. apply NoDup_filter, NoDup_fst_map_to_list.
    - intros k Hk. by apply elem_of_matched_keys in Hk as [_ Hsome]. }
  rewrite Hempty, map_size_empty in Hsize. rewrite Hempty.
  do 2 f_equal. lia.
Qed.

(** ** What leaves the context store alone *)

Lemma check_rate_limit_context_store c w :
  context_store (check_rate_limit c w).2 = context_store w.
Proof. rewrite check_rate_limit_unfold. by destruct (check_rate_limit_at _ _ _). Qed.

Lemma automate_menial_task_context_store task_type task_data output_format w :
  context_store (automate_menial_task task_type task_data output_format w).2
    = context_store w.
Proof.
  rewrite automate_menial_task_unfold.
  pose proof (check_rate_limit_context_store "default" w) as Hcheck.
  destruct (check_rate_limit "default" w) as [[] w1]; simpl in *; [| done].
  destruct (task_prompts output_format task_type); [| done].
  by rewrite chat_completion_context_store.
Qed.

Lemma batch_loop_context_store items operation batch_size starts :
  ∀ results w,
    context_store (batch_loop items operation batch_size starts results w).2
      = context_store w.
Proof.
  induction starts as [|i rest IH]; intros results w; [done |].
  rewrite batch_loop_cons.
  pose proof (check_rate_limit_context_store "default" w) as Hcheck.
  destruct (check_rate_limit "default" w) as [[] w1]; simpl in *; [| done].
  pose proof (chat_completion_context_store
                (batch_prompt operation (slice items i (i + batch_size)))
                BATCH_SYSTEM_PROMPT (3 # 10)%Q 1024 w1) as Hchat.
  destruct (chat_completion _ _ _ _ w1) as [resp w2]. simpl in Hchat.
  by rewrite IH, Hchat.
Qed.

Lemma batch_process_context_store items operation batch_size combine_results w :
  context_store (batch_process items operation batch_size combine_results w).2
    = context_store w.
Proof.
  unfold batch_process. destruct items as [|item items]; [done |].
  destruct (py_range _ _ _) as [starts|]; [| done].
  unfold bind.
  pose proof (batch_loop_context_store (item :: items) operation batch_size starts [] w)
    as Hloop.
  destruct (batch_loop _ _ _ _ _ w) as [results w1].
  by destruct combine_results.
Qed.

(** X13. Only [store], [summarize] and [clear_contexts] write the context
    store: every other call, [chat_completion], [automate_menial_task],
    [batch_process], and [offload_context] with any other operation,
    leaves every stored context as it was. *)
Theorem context_store_frame (c : tool_call) (w : world) :
  writes_context_store c = false →
  context_store (run_tool c w) = context_store w.
Proof.
  destruct c as [prompt sp t mt | id text operation | tt td fmt | items op k comb | pat
                | | | | | model];
    simpl; intros Hwrites; try done.
  - apply chat_completion_context_store.
  - apply orb_false_iff in Hwrites as [Hstore Hsummarize].
    apply bool_decide_eq_false in Hstore, Hsummarize.
    destruct (decide (operation = "retrieve")) as [->|Hretrieve].
    { by rewrite offload_retrieve. }
    destruct (decide (operation = "analyze")) as [->|Hanalyze].
    { rewrite offload_analyze.
      pose proof (chat_completion_context_store
                    ("Analyze this context and extract key information:" +:+ LF +:+ LF +:+ text)
                    ANALYZE_SYSTEM_PROMPT (3 # 10)%Q 800 w) as Hchat.
      by destruct (chat_completion _ _ _ _ w). }
    unfold offload_context. by rewrite !decide_False.
  - apply automate_menial_task_context_store.
  - apply batch_process_context_store.
Qed.

(** X14. In every state that a sequence of tool calls reaches from the
    start of the process, the token count of every stored entry is the
    estimate of its data. *)
Theorem context_store_consistent (calls : list tool_call) :
  map_Forall (λ _ e, entry_consistent e) (context_store (run_tools calls initial_world)).
Proof.
  assert (Hstep : ∀ c w, map_Forall (λ _ e, entry_consistent e) (context_store w) →
                         map_Forall (λ _ e, entry_consistent e) (context_store (run_tool c w))).
  { intros c w Hinv.
    destruct c as [prompt sp t mt | id text operation | tt td fmt | items op k comb | pat
                  | | | | | model];
      simpl.
    - by rewrite chat_completion_context_store.
    - by apply offload_context_consistent.
    - by rewrite automate_menial_task_context_store.
    - by rewrite batch_process_context_store.
    - intros k e. rewrite clear_contexts_lookup.
      case_decide; [done |]. destruct (str_in pat k); [done |]. apply Hinv.
    - done.
    - done.
    - done.
    - done.
    - done. }
  assert (Hrun : ∀ w, map_Forall (λ _ e, entry_consistent e) (context_store w) →
                      map_Forall (λ _ e, entry_consistent e)
                        (context_store (run_tools calls w))).
  { induction calls as [|c calls IH]; intros w Hinv; [done |].
    simpl. by apply IH, Hstep. }
  apply Hrun. simpl. apply map_Forall_empty.
Qed.

(** ** More on batches *)

(** X15. Degenerate batch runs touch nothing.  With no items the answer is
    the "no items" text; with items and a batch size of zero it is the
    error text of [range]; with a negative batch size the loop runs no
    batch at all and the answer is the empty text or, structured, zero
    processed items and no results.  In each case no admission check is
    made, no request is sent and the state is unchanged. *)
Theorem batch_process_degenerate (items : list string) (operation : string)
    (batch_size : Z) (combine_results : bool) (w : world) :
  items = [] ∨ batch_size ≤ 0 →
  batch_process items operation batch_size combine_results w =
    (match items with
     | [] => BatchText NO_ITEMS
     | _ :: _ =>
         if decide (batch_size = 0) then BatchText RANGE_ZERO_STEP
         else if combine_results then BatchText EmptyString
         else BatchJson (Z.of_nat (length items)) 0 []
     end, w).
Proof.
  intros Hdegenerate. unfold batch_process.
  destruct items as [|item items]; [done |].
  destruct Hdegenerate as [|Hsize]; [done |].
  unfold py_range. case_decide as Hzero; [done |].
  rewrite decide_False by lia.
  replace (Z.to_nat (0 - Z.of_nat (length (item :: items)))) with 0%nat by (simpl; lia).
  unfold bind. simpl. destruct combine_results; [done |].
  do 2 f_equal; lia.
Qed.


(** ** More on [automate_menial_task] *)

(** X17. An unknown task type is paid for: the admission check comes
    before the task type is looked up, so when the window has room the call
    answers "Unknown task type", sends nothing to the backend, and still
    leaves one more timestamp in the window of "default". *)
Theorem automate_unknown_task (task_type task_data output_format : string) (w : world) :
  task_type ∉ ["format"; "extract"; "transform"; "validate"; "generate"] →
  let now := time_time (clock_reads w) in
  let remaining := prune now (default [] (rate_limiter w !! "default")) in
  let (text, w') := automate_menial_task task_type task_data output_format w in
  posts w' = posts w
  ∧ if decide (RATE_LIMIT_MAX_REQUESTS ≤ Z.of_nat (length remaining))
    then text = RATE_LIMIT_EXCEEDED
         ∧ rate_limiter w' = <["default" := remaining]> (rate_limiter w)
    else text = unknown_task_type task_type
         ∧ rate_limiter w' = <["default" := remaining ++ [now]]> (rate_limiter w).
Proof.
  intros Hunknown now remaining.
  assert (Hnone : task_prompts output_format task_type = None).
  { unfold task_prompts.
    by rewrite !decide_False by (intros ->; apply Hunknown; set_solver). }
  rewrite automate_menial_task_unfold, check_rate_limit_unfold, Hnone.
  unfold check_rate_limit_at. fold now remaining.
  case_decide; simpl; done.
Qed.

(** X18. A request through [automate_menial_task] costs two admissions:
    the tool checks the rate limit and so does the [chat_completion] it
    calls.  Either nothing is sent to the backend, or one request is, and
    then the window of "default" ends with the timestamps of both checks. *)
Theorem automate_costs_two (task_type task_data output_format : string) (w : world) :
  let now1 := time_time (clock_reads w) in
  let now2 := time_time (S (clock_reads w)) in
  let old := default [] (rate_limiter w !! "default") in
  let w' := (automate_menial_task task_type task_data output_format w).2 in
  posts w' = posts w
  ∨ (∃ req, posts w' = posts w ++ [req])
    ∧ rate_limiter w' !! "default"
        = Some (prune now2 (prune now1 old ++ [now1]) ++ [now2]).
Proof.
  intros now1 now2 old w'. unfold w'.
  rewrite automate_menial_task_unfold, check_rate_limit_unfold. fold now1.
  destruct (check_rate_limit_at now1 "default" (rate_limiter w)) as [ok rl1] eqn:Hfirst.
  unfold check_rate_limit_at in Hfirst. fold old in Hfirst.
  case_decide as Hfull1; injection Hfirst as <- <-; [by left |].
  destruct (task_prompts output_format task_type) as [system_prompt|]; [| by left].
  rewrite chat_completion_unfold. simpl. fold now2.
  destruct (check_rate_limit_at now2 "default" _) as [ok rl2] eqn:Hsecond.
  unfold check_rate_limit_at in Hsecond. rewrite lookup_insert_eq in Hsecond.
  simpl in Hsecond.
  case_decide as Hfull2; injection Hsecond as <- <-; [by left |].
  right. simpl. split; [by eexists |]. by rewrite lookup_insert_eq.
Qed.

(** ** The order of the timestamps *)

Lemma StronglySorted_sublist (l1 l2 : list Z) :
  sublist l1 l2 → StronglySorted Z.le l2 → StronglySorted Z.le l1.
Proof.
  induction 1 as [|x l1 l2 Hsub IH|x l1 l2 Hsub IH]; intros Hs; [done | |].
  - apply StronglySorted_inv in Hs as [Hs Hall]. constructor; [by apply IH |].
    eapply Forall_forall. intros y Hy. eapply Forall_forall in Hall; [exact Hall |].
    eapply elem_of_sublist; [exact Hy | exact Hsub].
  - apply StronglySorted_inv in Hs as [Hs _]. by apply IH.
Qed.

(** X19. Oldest first: when the clock never goes back, in every state
    that a sequence of tool calls reaches from the start of the process
    each window of [rate_limiter] lists its timestamps in non-decreasing
    order. *)
Theorem windows_sorted (calls : list tool_call) :
  (∀ n m : nat, (n ≤ m)%nat → time_time n ≤ time_time m) →
  map_Forall (λ _ window, StronglySorted Z.le window)
    (rate_limiter (run_tools calls initial_world)).
Proof.
  intros Hclock.
  pose proof (run_tools_keeps
    (λ rl n, ∀ c window, rl !! c = Some window →
               StronglySorted Z.le window
               ∧ Forall (λ t, ∃ m : nat, (m < n)%nat ∧ t = time_time m) window)) as Hkeep.
  intros c window Hc.
  eapply (Hkeep _ _ calls initial_world _ c window Hc).
  Unshelve.
  - intros rl n HP c' window' Hc'. destruct (HP c' window' Hc') as [Hs Hall].
    split; [done |]. eapply Forall_impl; [exact Hall |].
    intros t (m & Hm & ->). exists m. split; [lia | done].
  - intros rl n HP c' window'.
    destruct (decide (c' = "default")) as [->|Hne].
    + rewrite check_rate_limit_at_same. intros [= <-].
      assert (Hold : StronglySorted Z.le (default [] (rl !! "default"))
                     ∧ Forall (λ t, ∃ m : nat, (m < n)%nat ∧ t = time_time m)
                         (default [] (rl !! "default"))).
      { destruct (rl !! "default") as [old|] eqn:Hold; simpl.
        - by apply (HP "default").
        - split; constructor. }
      destruct Hold as [Hs Hall].
      assert (Hpruned : StronglySorted Z.le (prune (time_time n) (default [] (rl !! "default")))
                        ∧ Forall (λ t, ∃ m : nat, (m < S n)%nat ∧ t = time_time m)
                            (prune (time_time n) (default [] (rl !! "default")))).
      { split.
        - eapply StronglySorted_sublist; [apply sublist_filter | done].
        - apply Forall_forall. intros t Ht. apply list_elem_of_filter in Ht as [_ Ht].
          eapply Forall_forall in Hall; [| exact Ht].
          destruct Hall as (m & Hm & ->). exists m. split; [lia | done]. }
      destruct Hpruned as [Hps Hpall].
      destruct (check_rate_limit_at _ _ _).1; [| done].
      split.
      * apply StronglySorted_app. split; [| split; [done | repeat constructor]].
        intros x1 x2 Hx1 Hx2. apply list_elem_of_singleton in Hx2 as ->.
        eapply Forall_forall in Hpall; [| exact Hx1].
        destruct Hpall as (m & Hm & ->). apply Hclock. lia.
      * apply Forall_app. split; [done |]. apply Forall_singleton.
        exists n. split; [lia | done].
    + rewrite check_rate_limit_at_other by done. intros Hc'.
      destruct (HP c' window' Hc') as [Hs Hall].
      split; [done |]. eapply Forall_impl; [exact Hall |].
      intros t (m & Hm & ->). exists m. split; [lia | done].
  - simpl. intros c' window'. by rewrite lookup_empty.
Qed.

(** ** Invariants of the whole state over every tool *)

Section WorldInvariant.

(** A property of the rate limiter, of the number of clock readings and of
    the requests sent so far that survives one more reading, one admission
    check of "default", and one request sent right after a granted check. *)
Variable Q : gmap string (list Z) → nat → list request → Prop.
Hypothesis Q_tick : ∀ rl n ps, Q rl n ps → Q rl (S n) ps.
Hypothesis Q_check :
  ∀ rl n ps, Q rl n ps → Q (check_rate_limit_at (time_time n) "default" rl).2 (S n) ps.
Hypothesis Q_post :
  ∀ rl n ps req,
    Q rl n ps →
    (check_rate_limit_at (time_time n) "default" rl).1 = true →
    Q (check_rate_limit_at (time_time n) "default" rl).2 (S n) (ps ++ [req]).

Local Abbreviation Qw w := (Q (rate_limiter w) (clock_reads w) (posts w)).

Lemma check_rate_limit_holds w : Qw w → Qw (check_rate_limit "default" w).2.
Proof.
  intros HQ. rewrite check_rate_limit_unfold.
  pose proof (Q_check _ _ _ HQ) as Hstep.
  by destruct (check_rate_limit_at _ _ _).
Qed.

Lemma chat_completion_holds prompt system_prompt temperature max_tokens w :
  Qw w → Qw (chat_completion prompt system_prompt temperature max_tokens w).2.
Proof.
  intros HQ. rewrite chat_completion_unfold.
  pose proof (Q_check _ _ _ HQ) as Hcheck.
  pose proof (Q_post _ _ _ (Request (chat_messages prompt system_prompt) temperature
                              max_tokens) HQ) as Hpost.
  destruct (check_rate_limit_at _ _ _) as [[] rl]; simpl in *; [by apply Hpost | done].
Qed.

Lemma offload_context_holds context_id context_data operation w :
  Qw w → Qw (offload_context context_id context_data operation w).2.
Proof.
  intros HQ.
  destruct (decide (operation = "store")) as [->|Hstore].
  { rewrite offload_store. case_decide; [done |]. simpl. by apply Q_tick. }
  destruct (decide (operation = "retrieve")) as [->|Hretrieve].
  { by rewrite offload_retrieve. }
  destruct (decide (operation = "summarize")) as [->|Hsummarize].
  { rewrite offload_summarize.
    pose proof (chat_completion_holds
                  ("Please summarize this context:" +:+ LF +:+ LF +:+ context_data)
                  SUMMARIZE_SYSTEM_PROMPT (3 # 10)%Q 500 w HQ) as Hchat.
    destruct (chat_completion _ _ _ _ w) as [resp w1]. simpl in *. by apply Q_tick. }
  destruct (decide (operation = "analyze")) as [->|Hanalyze].
  { rewrite offload_analyze.
    pose proof (chat_completion_holds
                  ("Analyze this context and extract key information:" +:+ LF +:+ LF
                     +:+ context_data)
                  ANALYZE_SYSTEM_PROMPT (3 # 10)%Q 800 w HQ) as Hchat.
    by destruct (chat_completion _ _ _ _ w) as [resp w1]. }
  unfold offload_context. by rewrite !decide_False.
Qed.

Lemma automate_menial_task_holds task_type task_data output_format w :
  Qw w → Qw (automate_menial_task task_type task_data output_format w).2.
Proof.
  intros HQ. rewrite automate_menial_task_unfold.
  pose proof (check_rate_limit_holds w HQ) as Hcheck.
  destruct (check_rate_limit "default" w) as [[] w1]; simpl in *; [| done].
  destruct (task_prompts output_format task_type); [| done].
  by apply chat_completion_holds.
Qed.

Lemma batch_loop_holds items operation batch_size starts :
  ∀ results w,
    Qw w → Qw (batch_loop items operation batch_size starts results w).2.
Proof.
  induction starts as [|i rest IH]; intros results w HQ; [done |].
  rewrite batch_loop_cons.
  pose proof (check_rate_limit_holds w HQ) as Hcheck.
  destruct (check_rate_limit "default" w) as [[] w1]; simpl in *; [| done].
  pose proof (chat_completion_holds (batch_prompt operation (slice items i (i + batch_size)))
                BATCH_SYSTEM_PROMPT (3 # 10)%Q 1024 w1 Hcheck) as Hchat.
  destruct (chat_completion _ _ _ _ w1) as [resp w2]. by apply IH.
Qed.

Lemma batch_process_holds items operation batch_size combine_results w :
  Qw w → Qw (batch_process items operation batch_size combine_results w).2.
Proof.
  intros HQ. unfold batch_process. destruct items as [|item items]; [done |].
  destruct (py_range _ _ _) as [starts|]; [| done].
  unfold bind.
  pose proof (batch_loop_holds (item :: items) operation batch_size starts [] w HQ) as Hloop.
  destruct (batch_loop _ _ _ _ _ w) as [results w1].
  by destruct combine_results.
Qed.

Lemma clear_contexts_holds context_pattern w :
  Qw w → Qw (clear_contexts context_pattern w).2.
Proof. intros HQ. rewrite clear_contexts_unfold. by case_decide. Qed.

(** Every call but that of [get_current_model], which sends its request
    without a check. *)
Lemma run_tool_holds c w : is_probe c = false → Qw w → Qw (run_tool c w).
Proof.
  destruct c; simpl; intros Hprobe; try done.
  - apply chat_completion_holds.
  - apply offload_context_holds.
  - apply automate_menial_task_holds.
  - apply batch_process_holds.
  - apply clear_contexts_holds.
  - intros HQ. by do 3 apply Q_tick.
Qed.

End WorldInvariant.

(** ** Within one window *)

Section OneWindow.

(** All the readings of the clock lie within one window of each other. *)
Hypothesis one_window : ∀ n m : nat, time_time n - time_time m < RATE_LIMIT_WINDOW.

Lemma prune_nothing n rl :
  all_readings rl →
  prune (time_time n) (default [] (rl !! "default")) = default [] (rl !! "default").
Proof.
  unfold all_readings, prune. induction 1 as [|t l [m ->] _ IH]; [done |].
  rewrite filter_cons_True by apply one_window. by rewrite IH.
Qed.

(** Within one window a check prunes nothing. *)
Lemma check_within_window n rl :
  all_readings rl →
  let window := default [] (rl !! "default") in
  check_rate_limit_at (time_time n) "default" rl =
    if decide (RATE_LIMIT_MAX_REQUESTS ≤ Z.of_nat (length window))
    then (false, <["default" := window]> rl)
    else (true, <["default" := window ++ [time_time n]]> rl).
Proof.
  intros Hall window. unfold check_rate_limit_at.
  by rewrite prune_nothing.
Qed.

Lemma all_readings_check n rl :
  all_readings rl → all_readings (check_rate_limit_at (time_time n) "default" rl).2.
Proof.
  intros Hall. rewrite check_within_window by done.
  unfold all_readings in *. case_decide; simpl; rewrite lookup_insert_eq; simpl; [done |].
  apply Forall_app. split; [done |]. apply Forall_singleton. by exists n.
Qed.

(** What a sequence of tool calls keeps within one window: the timestamps
    of "default" are readings of the clock, there are never more of them
    than the limit, and the requests sent are paid for by them, one by
    one, except those of [get_current_model]. *)
Lemma run_tools_within_window (calls : list tool_call) :
  ∀ (w : world) (d : nat),
    all_readings (rate_limiter w) →
    (length (posts w) ≤ length (default [] (rate_limiter w !! "default")) + d)%nat →
    Z.of_nat (length (default [] (rate_limiter w !! "default")))
      ≤ Z.max 0 RATE_LIMIT_MAX_REQUESTS →
    let w' := run_tools calls w in
    all_readings (rate_limiter w')
    ∧ (length (posts w')
       ≤ length (default [] (rate_limiter w' !! "default"))
         + (d + length (filter (λ c, is_probe c = true) calls)))%nat
    ∧ Z.of_nat (length (default [] (rate_limiter w' !! "default")))
        ≤ Z.max 0 RATE_LIMIT_MAX_REQUESTS.
Proof.
  induction calls as [|c calls IH]; intros w d Hall Hposts Hbound.
  - simpl. split; [done |]. split; [lia | done].
  - change (run_tools (c :: calls) w) with (run_tools calls (run_tool c w)). cbv zeta.
    destruct (is_probe c) eqn:Hprobe.
    + rewrite filter_cons_True by done.
      destruct c; try discriminate Hprobe.
      change (run_tool GetCurrentModel w) with (get_current_model_post w).
      destruct (IH (get_current_model_post w) (S d)) as (Hall' & Hposts' & Hbound').
      * done.
      * simpl. rewrite length_app. simpl. lia.
      * done.
      * split; [done |]. split; [| done]. simpl length in *. lia.
    + rewrite filter_cons_False by (by rewrite Hprobe).
      assert (Hafter :
                all_readings (rate_limiter (run_tool c w))
                ∧ (length (posts (run_tool c w))
                   ≤ length (default [] (rate_limiter (run_tool c w) !! "default")) + d)%nat
                ∧ Z.of_nat (length (default [] (rate_limiter (run_tool c w) !! "default")))
                    ≤ Z.max 0 RATE_LIMIT_MAX_REQUESTS).
      { apply (run_tool_holds
                 (λ rl _ ps,
                    all_readings rl
                    ∧ (length ps ≤ length (default [] (rl !! "default")) + d)%nat
                    ∧ Z.of_nat (length (default [] (rl !! "default")))
                        ≤ Z.max 0 RATE_LIMIT_MAX_REQUESTS)).
        - done.
        - intros rl n ps (Hall0 & Hposts0 & Hbound0).
          split; [by apply all_readings_check |].
          rewrite check_within_window by done.
          case_decide; simpl; rewrite lookup_insert_eq; simpl; [done |].
          rewrite length_app. simpl. lia.
        - intros rl n ps req (Hall0 & Hposts0 & Hbound0) Hgranted.
          split; [by apply all_readings_check |].
          rewrite check_within_window in Hgranted |- * by done.
          case_decide; simpl in *; [done |].
          rewrite lookup_insert_eq. simpl. rewrite !length_app. simpl. lia.
        - exact Hprobe.
        - done. }
      destruct Hafter as (Hall' & Hposts' & Hbound'). by apply IH.
Qed.

(** What holds of every state reached from the start within one window. *)
Lemma reachable_within_window (calls : list tool_call) :
  let w := run_tools calls initial_world in
  all_readings (rate_limiter w)
  ∧ (length (posts w)
     ≤ length (default [] (rate_limiter w !! "default"))
       + length (filter (λ c, is_probe c = true) calls))%nat
  ∧ Z.of_nat (length (default [] (rate_limiter w !! "default")))
      ≤ Z.max 0 RATE_LIMIT_MAX_REQUESTS.
Proof.
  apply (run_tools_within_window calls initial_world 0).
  - unfold all_readings. simpl. rewrite lookup_empty. constructor.
  - simpl. lia.
  - simpl. rewrite lookup_empty. simpl. lia.
Qed.

(** X20. What the rate limit guarantees to the backend: when all the
    readings of the clock lie within one window, whatever tools are called
    from the start of the process, and however often, the completion
    requests sent number at most [RATE_LIMIT_MAX_REQUESTS] plus one for
    each call of [get_current_model], which sends its request without an
    admission check. *)
Theorem posts_within_budget (calls : list tool_call) :
  Z.of_nat (length (posts (run_tools calls initial_world)))
    ≤ Z.max 0 RATE_LIMIT_MAX_REQUESTS
      + Z.of_nat (length (filter (λ c, is_probe c = true) calls)).
Proof.
  destruct (reachable_within_window calls) as (_ & Hposts & Hbound). lia.
Qed.

Lemma batch_loop_counts items operation batch_size starts :
  ∀ results w,
    all_readings (rate_limiter w) →
    let w' := (batch_loop items operation batch_size starts results w).2 in
    2 * Z.of_nat (length (posts w'))
      + Z.of_nat (length (default [] (rate_limiter w !! "default")))
    ≤ 2 * Z.of_nat (length (posts w))
      + Z.of_nat (length (default [] (rate_limiter w' !! "default"))).
Proof.
  induction starts as [|i rest IH]; intros results w Hall; [simpl; lia |].
  rewrite batch_loop_cons, check_rate_limit_unfold.
  pose proof (all_readings_check (clock_reads w) (rate_limiter w) Hall) as Hall1.
  rewrite check_within_window in Hall1 |- * by done.
  case_decide as Hfull1; simpl in *.
  { rewrite lookup_insert_eq. simpl. lia. }
  rewrite chat_completion_unfold. simpl.
  pose proof (all_readings_check (S (clock_reads w)) _ Hall1) as Hall2.
  rewrite check_within_window in Hall2 |- * by done.
  rewrite lookup_insert_eq in Hall2 |- *. simpl in Hall2 |- *.
  case_decide as Hfull2.
  - match goal with
    | |- context [batch_loop _ _ _ rest ?r ?w2] =>
        specialize (IH r w2); simpl in IH
    end.
    rewrite lookup_insert_eq in IH. simpl in IH.
    specialize (IH Hall2). rewrite length_app in IH. simpl in IH. lia.
  - match goal with
    | |- context [batch_loop _ _ _ rest ?r ?w2] =>
        specialize (IH r w2); simpl in IH
    end.
    rewrite lookup_insert_eq in IH. simpl in IH.
    specialize (IH Hall2). rewrite !length_app in IH. simpl in IH. lia.
Qed.

(** X21. A batch run gets half the budget: every batch spends two
    admissions, one for the check of the loop and one for the check inside
    [chat_completion].  So when all the readings of the clock lie within
    one window, a [batch_process] called in any state reached from the
    start sends at most half as many requests as the window of "default"
    had places left. *)
Theorem batch_half_budget (calls : list tool_call) (items : list string)
    (operation : string) (batch_size : Z) (combine_results : bool) :
  let w := run_tools calls initial_world in
  let w' := (batch_process items operation batch_size combine_results w).2 in
  2 * (Z.of_nat (length (posts w')) - Z.of_nat (length (posts w)))
    ≤ Z.max 0 RATE_LIMIT_MAX_REQUESTS
      - Z.of_nat (length (default [] (rate_limiter w !! "default"))).
Proof.
  intros w w'.
  destruct (reachable_within_window calls) as (Hall & _ & _). fold w in Hall.
  destruct (reachable_within_window
              (calls ++ [BatchProcess items operation batch_size combine_results]))
    as (_ & _ & Hbound).
  unfold run_tools in Hbound. rewrite foldl_app in Hbound. simpl in Hbound.
  fold (run_tools calls initial_world) in Hbound. fold w w' in Hbound.
  assert (Hcount : 2 * Z.of_nat (length (posts w'))
                     + Z.of_nat (length (default [] (rate_limiter w !! "default")))
                   ≤ 2 * Z.of_nat (length (posts w))
                     + Z.of_nat (length (default [] (rate_limiter w' !! "default")))).
  { unfold w', batch_process. destruct items as [|item items]; [simpl; lia |].
    destruct (py_range _ _ _) as [starts|]; [| simpl; lia].
    unfold bind.
    pose proof (batch_loop_counts (item :: items) operation batch_size starts [] w Hall)
      as Hloop.
    destruct (batch_loop _ _ _ _ _ w) as [results w1]. simpl in Hloop.
    by destruct combine_results. }
  lia.
Qed.

End OneWindow.

End Sidekick.

(** [len] counts code points, not bytes: the warning sign and its variation
    selector take six bytes and count for two. *)
Example len_rate_limit_exceeded :
  len RATE_LIMIT_EXCEEDED = 65%nat
  ∧ String.length RATE_LIMIT_EXCEEDED = 69%nat
  ∧ estimate_tokens RATE_LIMIT_EXCEEDED = 16.
Proof. repeat split; vm_compute; reflexivity. Qed.

Example py_range_examples :
  py_range 0 7 3 = Some [0; 3; 6] ∧ py_range 0 7 (-3) = Some [] ∧ py_range 0 7 0 = None.
Proof. repeat split; vm_compute; reflexivity. Qed.

(** Scenario 3 of the specification: thirty calls within ten ticks pass, the
    thirty-first is refused, and a call 61 ticks later passes again. *)
Example thirty_then_refused :
  let times := (λ n : nat, Z.of_nat (n / 3)) <$> seq 0 30 in
  admitted 60 30 "a" (((λ t, (t, "a")) <$> times) ++ [(9, "a"); (70, "a")]) ∅
    = times ++ [70].
Proof. vm_compute. reflexivity. Qed.

(** The witness of C1: three calls under the default configuration. *)
Lemma rate_limit_sliding_window_witness :
  StronglySorted Z.le [(0, "a"); (1, "b"); (61, "a")].*1
  ∧ Z.of_nat (length (filter (in_window 60 0)
                        (admitted 60 30 "a" [(0, "a"); (1, "b"); (61, "a")] ∅)))
      ≤ Z.max 0 30.
Proof.
  assert (Hs : StronglySorted Z.le [(0, "a"); (1, "b"); (61, "a")].*1).
  { simpl. repeat constructor; lia. }
  split; [exact Hs |].
  exact (proj1 (rate_limit_sliding_window 60 30 _ Hs) "a" 0).
Defined.

(** C1 as stated fails at the edge of the window: with a window of 60 and
    30 requests allowed, thirty calls at time 0 and one at time 60 all
    return [True], 31 timestamps within the 60 ticks from 0 to 60; pruning
    only what is older than [now - 60] would have kept the thirty and
    refused the last call. *)
Lemma rate_limit_window_edge :
  let calls := replicate 30 (0, "a") ++ [(60, "a")] in
  StronglySorted Z.le calls.*1
  ∧ filter (in_closed_window 60 0) (admitted 60 30 "a" calls ∅) = replicate 30 0 ++ [60]
  ∧ ¬ Z.of_nat (length (filter (in_closed_window 60 0) (admitted 60 30 "a" calls ∅))) ≤ 30
  ∧ (check_rate_limit_at 60 30 60 "a" {["a" := replicate 30 0]}).1 = true
  ∧ (admit_as_specified 60 30 60 "a" {["a" := replicate 30 0]}).1 = false.
Proof.
  split; [| split; [| split; [| split]]].
  - apply (bool_decide_unpack _). vm_compute. exact I.
  - vm_compute. reflexivity.
  - vm_compute. intros H. apply H. reflexivity.
  - vm_compute. reflexivity.
  - vm_compute. reflexivity.
Qed.

(** C3 fails on the code: [summarize] writes its entry without the size
    check of [store].  With [MAX_CONTEXT_SIZE] set to 10, summarising
    under the id "notes" when the backend replies with 60 characters leaves
    an entry "notes_summary" of 15 tokens in the store, although [store]
    refuses the very same text. *)
Theorem summarize_skips_size_check :
  let run := offload_context "localhost" "1234" 60 30 10
               sample_time sample_isoformat (sample_backend sample_reply) in
  let w' := (run "notes" "Minutes of the planning meeting." "summarize" initial_world).2 in
  context_store w' !! "notes_summary"
    = Some (ContextEntry sample_reply (sample_isoformat 1) 15)
  ∧ estimate_tokens sample_reply = 15
  ∧ ¬ entry_bounded 10 (ContextEntry sample_reply (sample_isoformat 1) 15)
  ∧ run "notes_summary" sample_reply "store" initial_world
      = (context_too_large 15 10, initial_world).
Proof.
  split; [| split; [| split]].
  - vm_compute. reflexivity.
  - vm_compute. reflexivity.
  - unfold entry_bounded. simpl. lia.
  - vm_compute. reflexivity.
Qed.

(** Why the clock must not go back: with a window of 10 and 2 requests
    allowed, readings 0, 0, 15 and then 1 admit all four calls, three of
    them with a timestamp in the window (-1, 9]. *)
Example clock_going_back :
  admitted 10 2 "a" [(0, "a"); (0, "a"); (15, "a"); (1, "a")] ∅ = [0; 0; 15; 1]
  ∧ filter (in_window 10 (-1)) [0; 0; 15; 1] = [0; 0; 1].
Proof. split; vm_compute; reflexivity. Qed.

(** C2 as stated fails: against the empty store, where no entry "notes"
    exists, [summarize] and [analyze] return the backend's reply under
    their heading, not the "not found" text. *)
Lemma derive_absent_source :
  let run := offload_context "localhost" "1234" 60 30 32000
               sample_time sample_isoformat (sample_backend sample_reply) in
  context_store initial_world !! "notes" = None
  ∧ (run "notes" "Minutes of the planning meeting." "summarize" initial_world).1
      = "📝 Summary created:" +:+ LF +:+ LF
          +:+ "The project plan covers three milestones and two open risks."
  ∧ (run "notes" "Minutes of the planning meeting." "summarize" initial_world).1
      ≠ "❌ Context ID 'notes' not found."
  ∧ (run "notes" "Minutes of the planning meeting." "analyze" initial_world).1
      = "🔍 Analysis:" +:+ LF +:+ LF
          +:+ "The project plan covers three milestones and two open risks."
  ∧ (run "notes" "Minutes of the planning meeting." "analyze" initial_world).1
      ≠ "❌ Context ID 'notes' not found."
  ∧ posts (run "notes" "Minutes of the planning meeting." "summarize" initial_world).2
      = [Request [("system", SUMMARIZE_SYSTEM_PROMPT);
                  ("user", "Please summarize this context:" +:+ LF +:+ LF
                             +:+ "Minutes of the planning meeting.")]
           (3 # 10)%Q 500].
Proof.
  split; [| split; [| split; [| split; [| split]]]];
    vm_compute; first [reflexivity | discriminate].
Qed.

(** The witness of C9: a store of twelve characters under the default
    limit of 32000 tokens. *)
Lemma store_retrieve_roundtrip_witness :
  estimate_tokens "hello world!" ≤ 32000
  ∧ ∃ ctx w1,
      offload_context "localhost" "1234" 60 30 32000
          sample_time sample_isoformat (sample_backend sample_reply)
          "proj1" "hello world!" "store" initial_world
        = ("✅ Context stored successfully. ID: " +:+ "proj1" +:+ " ("
             +:+ pretty (estimate_tokens "hello world!") +:+ " tokens)", w1)
      ∧ context_store w1 !! "proj1" = Some ctx
      ∧ data ctx = "hello world!"
      ∧ tokens ctx = estimate_tokens "hello world!"
      ∧ timestamp ctx = sample_isoformat 0
      ∧ offload_context "localhost" "1234" 60 30 32000
            sample_time sample_isoformat (sample_backend sample_reply)
            "proj1" EmptyString "retrieve" w1
          = ("📋 Context retrieved:" +:+ LF +:+ LF +:+ "hello world!" +:+ LF +:+ LF
               +:+ "(Stored: " +:+ timestamp ctx +:+ ", "
               +:+ pretty (estimate_tokens "hello world!") +:+ " tokens)", w1).
Proof.
  assert (Hfit : estimate_tokens "hello world!" ≤ 32000) by (vm_compute; discriminate).
  split; [exact Hfit |].
  exact (store_retrieve_roundtrip "localhost" "1234" 60 30 32000
           sample_time sample_isoformat (sample_backend sample_reply)
           "proj1" "hello world!" EmptyString initial_world Hfit).
Defined.

(** The witness of C7: seven items in batches of three, from the start,
    where the window has room for all three batches. *)
Lemma batch_chunks_witness :
  take 7 sample_items ≠ []
  ∧ 0 < 3
  ∧ Z.of_nat (length (chunks (take 7 sample_items) 3))
      = (Z.of_nat (length (take 7 sample_items)) + 3 - 1) / 3
  ∧ concat (chunks (take 7 sample_items) 3) = take 7 sample_items
  ∧ posts (batch_process "localhost" "1234" 60 30 sample_time (sample_backend sample_reply)
             (take 7 sample_items) "upper" 3 true initial_world).2
      = batch_request "upper"
          <$> [["item1"; "item2"; "item3"]; ["item4"; "item5"; "item6"]; ["item7"]].
Proof.
  assert (Hne : take 7 sample_items ≠ []) by discriminate.
  assert (Hpos : 0 < 3) by reflexivity.
  split; [exact Hne |]. split; [exact Hpos |].
  pose proof (batch_chunks "localhost" "1234" 60 30 sample_time
                (sample_backend sample_reply) (take 7 sample_items) "upper" 3 true
                initial_world Hne Hpos) as (Hcount & _ & Hconcat & _ & _ & _ & Hfull).
  split; [exact Hcount |]. split; [exact Hconcat |].
  assert (Hbudget : Z.of_nat (length (default [] (rate_limiter initial_world !! "default")))
                      + 2 * Z.of_nat (length (chunks (take 7 sample_items) 3)) ≤ 30).
  { vm_compute. intros Hgt. discriminate Hgt. }
  exact (proj1 (Hfull Hbudget)).
Defined.

(** Scenario 4 of the specification: seven items in batches of three. *)
Example chunks_of_seven :
  chunks (take 7 sample_items) 3
    = [["item1"; "item2"; "item3"]; ["item4"; "item5"; "item6"]; ["item7"]].
Proof. vm_compute. reflexivity. Qed.

(** Scenario 5 of the specification: clearing by substring. *)
Example clear_proj :
  let store : gmap string context_entry :=
    <["proj1" := ContextEntry "a" "t" 0]>
      (<["proj2" := ContextEntry "b" "t" 0]> (<["other" := ContextEntry "c" "t" 0]> ∅)) in
  clear_contexts "proj" (World ∅ store 0 [])
    = (cleared_matching 2 "proj", World ∅ (<["other" := ContextEntry "c" "t" 0]> ∅) 0 []).
Proof. vm_compute. reflexivity. Qed.

(** C4 fails on the code.  In a fresh process under the default
    configuration (30 requests per 60 ticks), [batch_process] of twenty
    items in batches of one with [combine_results] false completes fifteen
    batches, each of which spends two admissions, and is refused at the
    sixteenth.  The notice says that 15 items were processed, and 15
    requests reached the backend; yet "processed_items" is 16, and
    "results" holds the notice besides the fifteen outputs. *)
Theorem batch_rate_limit_overcount :
  let run := batch_process "localhost" "1234" 60 30 sample_time
               (sample_backend sample_reply) in
  (run sample_items "tag" 1 false initial_world).1
    = BatchJson 20 16
        (((λ j : nat, batch_header (Z.of_nat j) 20 sample_reply) <$> seq 1 15)
           ++ [rate_limit_hit 16 15])
  ∧ length (posts (run sample_items "tag" 1 false initial_world).2) = 15%nat.
Proof. split; vm_compute; reflexivity. Qed.

(** A refusal by the gateway itself goes unnoticed by the loop.  After one
    [chat_completion], the same batch run finds 29 timestamps in the window
    at its fifteenth batch: its own check takes the last place, the check
    inside [chat_completion] is refused, and the refusal text is filed as
    the output of batch 15.  The notice at batch 16 then reports 15 items
    although only 14 batch requests reached the backend. *)
Example batch_gateway_refusal_unnoticed :
  let chat := chat_completion "localhost" "1234" 60 30 sample_time
                (sample_backend sample_reply) in
  let run := batch_process "localhost" "1234" 60 30 sample_time
               (sample_backend sample_reply) in
  let w1 := (chat "hello" EmptyString (7 # 10)%Q 1024 initial_world).2 in
  (run sample_items "tag" 1 false w1).1
    = BatchJson 20 16
        (((λ j : nat, batch_header (Z.of_nat j) 20 sample_reply) <$> seq 1 14)
           ++ [batch_header 15 20 RATE_LIMIT_EXCEEDED; rate_limit_hit 16 15])
  ∧ length (posts w1) = 1%nat
  ∧ length (posts (run sample_items "tag" 1 false w1).2) = 15%nat.
Proof. repeat split; vm_compute; reflexivity. Qed.

(** The witness of X3: with 2 requests allowed per 60 ticks, a call
    refused at time 5 and a later call at time 70. *)
Lemma refused_check_forgotten_witness :
  (check_rate_limit_at 60 2 5 "a" {["a" := [0; 1]]}).1 = false
  ∧ 5 ≤ 70
  ∧ (check_rate_limit_at 60 2 70 "a" (check_rate_limit_at 60 2 5 "a" {["a" := [0; 1]]}).2).1
      = (check_rate_limit_at 60 2 70 "a" {["a" := [0; 1]]}).1.
Proof.
  assert (Hrefused : (check_rate_limit_at 60 2 5 "a" {["a" := [0; 1]]}).1 = false)
    by (vm_compute; reflexivity).
  assert (Hle : 5 ≤ 70) by lia.
  split; [exact Hrefused |]. split; [exact Hle |].
  exact (proj1 (refused_check_forgotten 60 2 5 70 "a" "a" {["a" := [0; 1]]} Hrefused Hle)).
Defined.

(** The witness of X4: two timestamps that are 100 and 60 ticks old. *)
Lemma window_recovers_witness :
  0 < 30
  ∧ Forall (λ t, t ≤ 100 - 60) (default [] (({["a" := [0; 40]]} : gmap string (list Z)) !! "a"))
  ∧ check_rate_limit_at 60 30 100 "a" {["a" := [0; 40]]}
      = (true, <["a" := [100]]> {["a" := [0; 40]]}).
Proof.
  assert (Hmax : 0 < 30) by lia.
  assert (Hold : Forall (λ t, t ≤ 100 - 60)
                   (default [] (({["a" := [0; 40]]} : gmap string (list Z)) !! "a"))).
  { change (Forall (λ t, t ≤ 100 - 60) [0; 40]). repeat constructor; lia. }
  split; [exact Hmax |]. split; [exact Hold |].
  exact (window_recovers 60 30 100 "a" {["a" := [0; 40]]} Hmax Hold).
Defined.

(** The witness of X7: a text that is refused, then one that is accepted,
    with 10 tokens allowed. *)
Lemma store_last_write_wins_witness :
  estimate_tokens "short" ≤ 10
  ∧ context_store
      (offload_context "localhost" "1234" 60 30 10 sample_time sample_isoformat
         (sample_backend sample_reply) "notes" "short" "store"
         (offload_context "localhost" "1234" 60 30 10 sample_time sample_isoformat
            (sample_backend sample_reply) "notes" sample_reply "store" initial_world).2).2
      !! "notes"
    = Some (ContextEntry "short" (sample_isoformat 0) 1).
Proof.
  assert (Hfit : estimate_tokens "short" ≤ 10) by (vm_compute; discriminate).
  split; [exact Hfit |].
  rewrite (store_last_write_wins "localhost" "1234" 60 30 10 sample_time sample_isoformat
             (sample_backend sample_reply) "notes" sample_reply "short" initial_world Hfit).
  vm_compute. reflexivity.
Defined.

(** The witness of X8: thirty completions fill the window, then a
    summary is asked for. *)
Lemma summarize_persists_refusal_witness :
  let w := run_tools "localhost" "1234" 60 30 32000 sample_time sample_isoformat
             (sample_backend sample_reply)
             (replicate 30 (ChatCompletion "hello" EmptyString (7 # 10)%Q 1024))
             initial_world in
  30 ≤ Z.of_nat (length (prune 60 (sample_time (clock_reads w))
                           (default [] (rate_limiter w !! "default"))))
  ∧ (offload_context "localhost" "1234" 60 30 32000 sample_time sample_isoformat
       (sample_backend sample_reply) "notes" "Minutes of the planning meeting."
       "summarize" w).1
    = summary_created RATE_LIMIT_EXCEEDED.
Proof.
  set (w := run_tools _ _ _ _ _ _ _ _ _ _).
  assert (Hfull : 30 ≤ Z.of_nat (length (prune 60 (sample_time (clock_reads w))
                                          (default [] (rate_limiter w !! "default")))))
    by (vm_compute; discriminate).
  split; [exact Hfull |].
  pose proof (summarize_persists_refusal "localhost" "1234" 60 30 32000 sample_time sample_isoformat
                (sample_backend sample_reply) "notes" "Minutes of the planning meeting."
                w Hfull) as Hsum.
  destruct (offload_context _ _ _ _ _ _ _ _ _ _ _ w) as [text w'].
  exact (proj1 Hsum).
Defined.

(** The witness of X10: clearing "proj" and asking for "proj1". *)
Lemma clear_then_retrieve_witness :
  ("proj" = "*" ∨ is_substring "proj" "proj1")
  ∧ (offload_context "localhost" "1234" 60 30 32000 sample_time sample_isoformat
       (sample_backend sample_reply) "proj1" EmptyString "retrieve"
       (clear_contexts "proj" initial_world).2).1
    = context_not_found "proj1".
Proof.
  assert (Hmatch : "proj" = "*" ∨ is_substring "proj" "proj1").
  { right. by exists EmptyString, "1". }
  split; [exact Hmatch |].
  exact (f_equal fst
           (clear_then_retrieve "localhost" "1234" 60 30 32000 sample_time sample_isoformat
              (sample_backend sample_reply) "proj" "proj1" EmptyString initial_world Hmatch)).
Defined.

(** The witness of X13: a batch run. *)
Lemma context_store_frame_witness :
  writes_context_store (BatchProcess sample_items "tag" 5 true) = false
  ∧ context_store
      (run_tool "localhost" "1234" 60 30 32000 sample_time sample_isoformat
         (sample_backend sample_reply) (BatchProcess sample_items "tag" 5 true)
         initial_world)
    = context_store initial_world.
Proof.
  assert (Hwrites : writes_context_store (BatchProcess sample_items "tag" 5 true) = false)
    by reflexivity.
  split; [exact Hwrites |].
  exact (context_store_frame "localhost" "1234" 60 30 32000 sample_time sample_isoformat
           (sample_backend sample_reply) (BatchProcess sample_items "tag" 5 true)
           initial_world Hwrites).
Defined.

(** The witness of X15: a batch size of -2. *)
Lemma batch_process_degenerate_witness :
  (sample_items = [] ∨ -2 ≤ 0)
  ∧ batch_process "localhost" "1234" 60 30 sample_time (sample_backend sample_reply)
      sample_items "tag" (-2) false initial_world
    = (BatchJson 20 0 [], initial_world).
Proof.
  assert (Hdegenerate : sample_items = [] ∨ -2 ≤ 0) by (right; lia).
  split; [exact Hdegenerate |].
  exact (batch_process_degenerate "localhost" "1234" 60 30 sample_time
           (sample_backend sample_reply) sample_items "tag" (-2) false initial_world
           Hdegenerate).
Defined.


(** The witness of X17: the task type "sort". *)
Lemma automate_unknown_task_witness :
  ("sort" ∉ ["format"; "extract"; "transform"; "validate"; "generate"])
  ∧ (automate_menial_task "localhost" "1234" 60 30 sample_time (sample_backend sample_reply)
       "sort" "3 1 2" "text" initial_world).1
    = unknown_task_type "sort".
Proof.
  assert (Hunknown : "sort" ∉ ["format"; "extract"; "transform"; "validate"; "generate"]).
  { apply (bool_decide_unpack _). vm_compute. exact I. }
  split; [exact Hunknown |].
  pose proof (automate_unknown_task "localhost" "1234" 60 30 sample_time
                (sample_backend sample_reply) "sort" "3 1 2" "text" initial_world Hunknown)
    as Hauto.
  destruct (automate_menial_task _ _ _ _ _ _ _ _ _ initial_world) as [text w'].
  destruct Hauto as [_ Hauto].
  rewrite decide_False in Hauto by (vm_compute; intros Hle; apply Hle; reflexivity).
  exact (proj1 Hauto).
Defined.

(** The witness of X19: the sample clock, one tick per reading. *)
Lemma windows_sorted_witness :
  (∀ n m : nat, (n ≤ m)%nat → sample_time n ≤ sample_time m)
  ∧ map_Forall (λ _ window, StronglySorted Z.le window)
      (rate_limiter
         (run_tools "localhost" "1234" 60 30 32000 sample_time sample_isoformat
            (sample_backend sample_reply)
            [ChatCompletion "hello" EmptyString (7 # 10)%Q 1024;
             BatchProcess sample_items "tag" 5 true]
            initial_world)).
Proof.
  assert (Hclock : ∀ n m : nat, (n ≤ m)%nat → sample_time n ≤ sample_time m).
  { intros n m Hnm. unfold sample_time. lia. }
  split; [exact Hclock |].
  exact (windows_sorted "localhost" "1234" 60 30 32000 sample_time sample_isoformat
           (sample_backend sample_reply) _ Hclock).
Defined.

(** The witness of X20: two probes of the model and forty completions in
    a burst, thirty allowed. *)
Lemma posts_within_budget_witness :
  (∀ n m : nat, sample_burst_time n - sample_burst_time m < 60)
  ∧ Z.of_nat (length (posts
        (run_tools "localhost" "1234" 60 30 32000 sample_burst_time sample_isoformat
           (sample_backend sample_reply)
           (GetCurrentModel
              :: replicate 40 (ChatCompletion "hello" EmptyString (7 # 10)%Q 1024)
              ++ [GetCurrentModel])
           initial_world)))
    ≤ Z.max 0 30 + 2.
Proof.
  assert (Hburst : ∀ n m : nat, sample_burst_time n - sample_burst_time m < 60).
  { intros n m. unfold sample_burst_time. lia. }
  split; [exact Hburst |].
  exact (posts_within_budget "localhost" "1234" 60 30 32000 sample_burst_time
           sample_isoformat (sample_backend sample_reply) Hburst
           (GetCurrentModel
              :: replicate 40 (ChatCompletion "hello" EmptyString (7 # 10)%Q 1024)
              ++ [GetCurrentModel])).
Defined.

(** The witness of X21: a batch run of twenty batches in a burst. *)
Lemma batch_half_budget_witness :
  (∀ n m : nat, sample_burst_time n - sample_burst_time m < 60)
  ∧ 2 * (Z.of_nat (length (posts
            (batch_process "localhost" "1234" 60 30 sample_burst_time
               (sample_backend sample_reply) sample_items "tag" 1 true initial_world).2))
         - Z.of_nat (length (posts initial_world)))
    ≤ Z.max 0 30 - Z.of_nat (length (default [] (rate_limiter initial_world !! "default"))).
Proof.
  assert (Hburst : ∀ n m : nat, sample_burst_time n - sample_burst_time m < 60).
  { intros n m. unfold sample_burst_time. lia. }
  split; [exact Hburst |].
  exact (batch_half_budget "localhost" "1234" 60 30 32000 sample_burst_time
           sample_isoformat (sample_backend sample_reply) Hburst [] sample_items "tag" 1 true).
Defined.

(** In such a burst twenty batches of one item get fifteen requests
    through, the most that thirty admissions pay for. *)
Example batch_burst_fifteen :
  length (posts
    (batch_process "localhost" "1234" 60 30 sample_burst_time
       (sample_backend sample_reply) sample_items "tag" 1 true initial_world).2) = 15%nat.
Proof. vm_compute. reflexivity. Qed.
